(** * The pipeline observer of the Test Pilot frontend

    A shallow embedding of the [usePipeline] hook (the event reducer
    [handleEvent], the navigation handler [navigateToStep], the start of a
    run and the line decoder of [startPipeline]) and of the start button of
    [UrlInputStep], followed by the properties of its run progress state.

    Conventions.
    - JavaScript numbers that hold step indices are integers throughout the
      hook; they are modelled in [Z].
    - A piece of React state [x] with setter [setX] is a field of [state];
      [setX] takes the updater function, as [setX((prev) => ...)] does, and a
      plain [setX(v)] is the constant updater.  The mutable ref
      [userNavigatedRef] is a field too.  Handlers run to completion one
      after the other, so a handler is a function [state -> state].
    - [STEP_INDEX_MAP] and [stepData] are objects used as maps: finite maps
      of their own properties.  [completedSteps] is a [Set] of numbers.
      A read of [STEP_INDEX_MAP] under a name that objects inherit from
      [Object.prototype] is not a read of an own property; [read_step_index]
      and [Exact.handleEvent] cover it, and [handleEvent] is the reducer on
      all other events ([handleEvent_is_exact]).
    - [JSON.parse] is a parameter of the decoder. *)

From Stdlib Require Import ZArith NArith Ascii String List Lia.
From stdpp Require Import gmap strings list.
Import ListNotations.

Local Open Scope Z_scope.

(* ===================================================================== *)
(** ** Strings of the host language *)
(* ===================================================================== *)

Module Js.

(** The text typed in a URL field is inspected with [String.prototype.trim],
    whose notion of white space goes beyond ASCII; such a string is
    modelled as its sequence of UTF-16 code units. *)
Definition code_unit := N.
Definition text := list code_unit.

(** WhiteSpace and LineTerminator code points of ECMAScript. *)
Definition is_white_space (c : code_unit) : bool :=
  ((c =? 9) || (c =? 10) || (c =? 11) || (c =? 12) || (c =? 13)
   || (c =? 32) || (c =? 160) || (c =? 5760)
   || ((8192 <=? c) && (c <=? 8202))
   || (c =? 8232) || (c =? 8233) || (c =? 8239) || (c =? 8287)
   || (c =? 12288) || (c =? 65279))%N.

Fixpoint trimStart (s : text) : text :=
  match s with
  | [] => []
  | c :: s' => if is_white_space c then trimStart s' else s
  end.

Definition trimEnd (s : text) : text := rev (trimStart (rev s)).

Definition trim (s : text) : text := trimEnd (trimStart s).

(** ToBoolean of a string: only the empty string is falsy. *)
Definition truthy (s : text) : bool :=
  match s with [] => false | _ :: _ => true end.

Definition of_string (s : string) : text :=
  map (fun a => N_of_ascii a) (list_ascii_of_string s).

(** [Array.prototype.join] on an array of strings. *)
Fixpoint join (sep : string) (xs : list string) : string :=
  match xs with
  | [] => EmptyString
  | [x] => x
  | x :: rest => String.append x (String.append sep (join sep rest))
  end.

(** [s.slice(n)] for [n >= 0]. *)
Fixpoint slice (n : nat) (s : string) : string :=
  match n, s with
  | O, _ => s
  | S _, EmptyString => EmptyString
  | S n', String _ s' => slice n' s'
  end.

(** [s.startsWith(p)]. *)
Fixpoint startsWith (p s : string) : bool :=
  match p, s with
  | EmptyString, _ => true
  | String _ _, EmptyString => false
  | String a p', String b s' => if Ascii.eqb a b then startsWith p' s' else false
  end.

Definition newline : ascii := Ascii.ascii_of_nat 10.

(** [s.split("\n")]: never empty; the last element is what follows the
    last newline. *)
Fixpoint split_newline (s : string) : list string :=
  match s with
  | EmptyString => [EmptyString]
  | String c s' =>
      if Ascii.eqb c newline then EmptyString :: split_newline s'
      else match split_newline s' with
           | [] => [String c EmptyString]
           | l :: ls => String c l :: ls
           end
  end.

End Js.

(* ===================================================================== *)
(** ** Data model *)
(* ===================================================================== *)

Record ToolRow := mkToolRow {
  tool_name : string;
  tool_method : string;
  tool_path : string;
  tool_safety : string;
  tool_execution : string;
  tool_rateLimit : Z
}.

Record TestStepDetail := mkTestStepDetail {
  ts_action : string;
  ts_success : bool;
  ts_duration_ms : Z;
  ts_error : string
}.

Record TestResultDetail := mkTestResultDetail {
  tr_test_name : string;
  tr_description : string;
  tr_passed : bool;
  tr_duration_ms : Z;
  tr_summary : string;
  tr_narrative : string;
  tr_analysis : string;
  tr_steps : list TestStepDetail
}.

(** [PipelineEvent].  The status is kept as the string that arrives: the
    reducer compares it with literals and has a fall-through case. *)
Record PipelineEvent := mkEvent {
  ev_step : string;
  ev_status : string;
  ev_items : list string;
  ev_sandbox : option string;
  ev_toolRows : option (list ToolRow);
  ev_testResults : option (list TestResultDetail);
  ev_passed : option Z;
  ev_total : option Z
}.

Inductive StepStatus := pending | running | done | error.

Record StepData := mkStepData {
  sd_items : list string;
  sd_status : StepStatus;
  sd_toolRows : option (list ToolRow);
  sd_testResults : option (list TestResultDetail);
  sd_passed : option Z;
  sd_total : option Z;
  sd_sandbox : option string
}.

Definition MAX_STEP : Z := 11.

Definition STEP_INDEX_MAP : gmap string Z :=
  list_to_map
    [ ("clone", 1); ("deploy-sandbox", 2); ("extract", 3); ("ingest", 4);
      ("discover", 5); ("schema", 6); ("policy", 7); ("generate", 8);
      ("mcp-test", 9); ("deploy", 10); ("user-test", 11) ].

(** The state of the hook. *)
Record state := mkState {
  isRunning : bool;
  activeStep : Z;
  viewedStep : Z;
  userNavigatedRef : bool;
  completedSteps : gset Z;
  stepData : gmap Z StepData;
  run_error : option string
}.

(** The spec's [following] flag is the negation of the ref. *)
Definition following (st : state) : bool := negb (userNavigatedRef st).

Definition initial_state : state :=
  mkState false 0 0 false ∅ ∅ None.

Definition setIsRunning (f : bool -> bool) (st : state) : state :=
  mkState (f (isRunning st)) (activeStep st) (viewedStep st)
          (userNavigatedRef st) (completedSteps st) (stepData st) (run_error st).

Definition setActiveStep (f : Z -> Z) (st : state) : state :=
  mkState (isRunning st) (f (activeStep st)) (viewedStep st)
          (userNavigatedRef st) (completedSteps st) (stepData st) (run_error st).

Definition setViewedStep (f : Z -> Z) (st : state) : state :=
  mkState (isRunning st) (activeStep st) (f (viewedStep st))
          (userNavigatedRef st) (completedSteps st) (stepData st) (run_error st).

Definition setUserNavigated (b : bool) (st : state) : state :=
  mkState (isRunning st) (activeStep st) (viewedStep st)
          b (completedSteps st) (stepData st) (run_error st).

Definition setCompletedSteps (f : gset Z -> gset Z) (st : state) : state :=
  mkState (isRunning st) (activeStep st) (viewedStep st)
          (userNavigatedRef st) (f (completedSteps st)) (stepData st) (run_error st).

Definition setStepData (f : gmap Z StepData -> gmap Z StepData) (st : state) : state :=
  mkState (isRunning st) (activeStep st) (viewedStep st)
          (userNavigatedRef st) (completedSteps st) (f (stepData st)) (run_error st).

Definition setError (f : option string -> option string) (st : state) : state :=
  mkState (isRunning st) (activeStep st) (viewedStep st)
          (userNavigatedRef st) (completedSteps st) (stepData st) (f (run_error st)).

(* ===================================================================== *)
(** ** The event reducer *)
(* ===================================================================== *)

(** The [StepData] object [handleEvent] builds from an event: [items] and
    [status] always, each optional field only when the event carries it
    ([toolRows] and [testResults] when truthy, which an array always is;
    [passed] and [total] when not [undefined]; [sandbox] when truthy, that
    is non-empty). *)
Definition event_data (event : PipelineEvent) : StepData :=
  {| sd_items := ev_items event;
     sd_status :=
       if String.eqb (ev_status event) "done" then done
       else if String.eqb (ev_status event) "error" then error
       else running;
     sd_toolRows := ev_toolRows event;
     sd_testResults := ev_testResults event;
     sd_passed := ev_passed event;
     sd_total := ev_total event;
     sd_sandbox :=
       match ev_sandbox event with
       | Some s => if String.eqb s "" then None else Some s
       | None => None
       end |}.

Definition handleEvent (event : PipelineEvent) (st : state) : state :=
  if String.eqb (ev_step event) "pipeline" then
    if String.eqb (ev_status event) "error"
    then setError (fun _ => Some (Js.join "; " (ev_items event))) st
    else st
  else
    match STEP_INDEX_MAP !! ev_step event with
    | None => st
    | Some stepIdx =>
        let data := event_data event in
        let st := setStepData (fun prev => <[stepIdx := data]> prev) st in
        if String.eqb (ev_status event) "running" then
          let clamped := Z.min stepIdx MAX_STEP in
          let st := setActiveStep (fun _ => clamped) st in
          if negb (userNavigatedRef st)
          then setViewedStep (fun _ => clamped) st
          else st
        else if String.eqb (ev_status event) "done" then
          let st := setCompletedSteps (fun prev => prev ∪ {[stepIdx]}) st in
          let next := Z.min (stepIdx + 1) MAX_STEP in
          let st := setActiveStep (fun prev => Z.max prev next) st in
          if negb (userNavigatedRef st)
          then setViewedStep (fun prev => Z.max prev next) st
          else st
        else st
    end.

(* ===================================================================== *)
(** ** Navigation and cancellation *)
(* ===================================================================== *)

Definition navigateToStep (index : Z) (st : state) : state :=
  let clamped := Z.min (Z.max index 0) MAX_STEP in
  let st := setUserNavigated true st in
  setViewedStep (fun _ => clamped) st.

(** [cancel]: aborting the fetch ends the stream of events; on the state it
    only clears [isRunning]. *)
Definition cancel (st : state) : state := setIsRunning (fun _ => false) st.

(* ===================================================================== *)
(** ** Starting a run *)
(* ===================================================================== *)

(** What the hook sends out. *)
Inductive request :=
| POST_start (urls : list Js.text)
| GET_stream (run_id : string).

(** The observable world of a handler: the hook state and the requests
    issued so far, oldest first. *)
Record world := mkWorld {
  ui : state;
  requests : list request
}.

(** The state part of [startPipeline], all of it before the first [await]:
    every piece of run state is reset and step 0 (url-input) is marked
    complete. *)
Definition start_reset (st : state) : state :=
  let st := setIsRunning (fun _ => true) st in
  let st := setError (fun _ => None) st in
  let st := setCompletedSteps (fun _ => ∅) st in
  let st := setStepData (fun _ => ∅) st in
  let st := setUserNavigated false st in
  let st := setActiveStep (fun _ => 1) st in
  let st := setViewedStep (fun _ => 1) st in
  setCompletedSteps (fun prev => prev ∪ {[0]}) st.

(** [startPipeline] up to its first [await]: the reset, then the submission
    request is issued. *)
Definition startPipeline_sync (urls : list Js.text) (w : world) : world :=
  {| ui := start_reset (ui w);
     requests := requests w ++ [POST_start urls] |}.

(** [UrlInputStep.handleStart], with [onStart] bound to [startPipeline]:
    blank entries are filtered out and nothing is called when none is left. *)
Definition handleStart (urls : list Js.text) (w : world) : world :=
  let valid := List.filter (fun u => Js.truthy (Js.trim u)) urls in
  if (0 <? Z.of_nat (List.length valid)) then startPipeline_sync valid w else w.

(* ===================================================================== *)
(** ** Traces of a run *)
(* ===================================================================== *)

Definition handleEvents (events : list PipelineEvent) (st : state) : state :=
  fold_left (fun st event => handleEvent event st) events st.

(** The [catch] clause of [startPipeline]: an exception other than the
    abort is recorded as the run error, [e.message || "Pipeline failed"]. *)
Definition catch_error (name message : string) (st : state) : state :=
  if negb (String.eqb name "AbortError")
  then setError (fun _ => Some (if String.eqb message "" then "Pipeline failed"
                                else message)) st
  else st.

(** The [finally] clause. *)
Definition finish (st : state) : state := setIsRunning (fun _ => false) st.

(** What can happen to the state between the start of a run and the next
    one: an event is reduced, the user navigates, the user cancels, a
    request or a read throws, the run ends. *)
Inductive action :=
| Receive (event : PipelineEvent)
| Navigate (index : Z)
| Cancel
| Throw (name message : string)
| Finish.

Definition perform (a : action) (st : state) : state :=
  match a with
  | Receive event => handleEvent event st
  | Navigate index => navigateToStep index st
  | Cancel => cancel st
  | Throw name message => catch_error name message st
  | Finish => finish st
  end.

Definition perform_all (acts : list action) (st : state) : state :=
  fold_left (fun st a => perform a st) acts st.

Definition is_navigate (a : action) : bool :=
  match a with Navigate _ => true | _ => false end.

(* ===================================================================== *)
(** ** The stream decoder *)
(* ===================================================================== *)

Section Decoder.

(** [JSON.parse] followed by the use of its result as a [PipelineEvent];
    [None] when it throws, the case the [catch] of the loop swallows. *)
Variable JSON_parse : string -> option PipelineEvent.

(** The body of [for (const line of lines)]. *)
Definition on_line (line : string) (st : state) : state :=
  if negb (Js.startsWith "data: " line) then st
  else match JSON_parse (Js.slice 6 line) with
       | Some event => handleEvent event st
       | None => st
       end.

Definition on_lines (lines : list string) (st : state) : state :=
  fold_left (fun st line => on_line line st) lines st.

(** [lines.pop() || ""] together with what is left in [lines]. *)
Definition pop_line (lines : list string) : string * list string :=
  (default EmptyString (last lines), removelast lines).

(** One turn of the read loop on the text decoded from one chunk. *)
Definition on_chunk (bs : string * state) (chunk : string) : string * state :=
  let '(buffer, st) := bs in
  let buffer := String.append buffer chunk in
  let lines := Js.split_newline buffer in
  let '(buffer, lines) := pop_line lines in
  (buffer, on_lines lines st).

(** The read loop over the chunks that arrive before [done]; the buffer
    is dropped when the loop is left. *)
Definition read_loop (chunks : list string) (bs : string * state) : string * state :=
  fold_left on_chunk chunks bs.

Definition read_stream (chunks : list string) (st : state) : state :=
  snd (read_loop chunks (EmptyString, st)).

(** The lines of a text that end in a newline. *)
Definition complete_lines (text : string) : list string :=
  removelast (Js.split_newline text).

(** The text after the last newline. *)
Definition unterminated (text : string) : string :=
  default EmptyString (last (Js.split_newline text)).

Definition malformed (line : string) : Prop :=
  Js.startsWith "data: " line = false \/ JSON_parse (Js.slice 6 line) = None.

End Decoder.

(** The whole text of a stream: its chunks one after the other. *)
Definition stream_text (chunks : list string) : string :=
  fold_right String.append EmptyString chunks.

(** Each line followed by a newline. *)
Definition unlines (lines : list string) : string :=
  fold_right (fun l acc => String.append l (String Js.newline acc)) EmptyString lines.

Fixpoint has_newline (s : string) : bool :=
  match s with
  | EmptyString => false
  | String c s' => Ascii.eqb c Js.newline || has_newline s'
  end.

(* ===================================================================== *)
(** ** Predicates of the statements *)
(* ===================================================================== *)

(** A URL entry made of white space only (the empty entry included). *)
Definition blank (u : Js.text) : Prop :=
  Forall (fun c => Js.is_white_space c = true) u.

(** The index ranges of a run: completed steps within [0, MAX_STEP], step
    data only for the steps of the backend, [1, MAX_STEP]. *)
Definition indices_in_range (st : state) : Prop :=
  (forall n : Z, n ∈ completedSteps st -> 0 <= n <= MAX_STEP) /\
  (forall n : Z, is_Some (stepData st !! n) -> 1 <= n <= MAX_STEP).

(** The step pointers of a run: the active step among the steps of the
    backend, the viewed step anywhere on the stepper. *)
Definition steps_in_range (st : state) : Prop :=
  1 <= activeStep st <= MAX_STEP /\ 0 <= viewedStep st <= MAX_STEP.

(** Every completed step but step 0 has step data. *)
Definition completed_have_data (st : state) : Prop :=
  forall n : Z, n ∈ completedSteps st -> n <> 0 -> is_Some (stepData st !! n).

(** No entry of the step data is marked [pending]. *)
Definition no_pending_data (st : state) : Prop :=
  forall (n : Z) (d : StepData), stepData st !! n = Some d -> sd_status d <> pending.

(** Two states with the same progress: equal but for the viewed step and
    the navigation ref. *)
Definition same_progress (s t : state) : Prop :=
  isRunning s = isRunning t /\ activeStep s = activeStep t /\
  completedSteps s = completedSteps t /\ stepData s = stepData t /\
  run_error s = run_error t.

(* ===================================================================== *)
(** ** Proof automation *)
(* ===================================================================== *)

(** Splits a goal about [handleEvent event st] along the branches of the
    source: meta-event (error or not), unmapped step, and for a mapped step
    the status ([running], [done], other) and the navigation ref. *)
Ltac reducer_cases event st :=
  unfold handleEvent;
  destruct (String.eqb_spec (ev_step event) "pipeline");
  [ destruct (String.eqb_spec (ev_status event) "error")
  | destruct (STEP_INDEX_MAP !! ev_step event) eqn:?;
    [ destruct (String.eqb_spec (ev_status event) "running");
      [ | destruct (String.eqb_spec (ev_status event) "done") ]
    | ] ];
  cbn; destruct (userNavigatedRef st) eqn:?; cbn.

(* ===================================================================== *)
(** ** Sample events and states *)
(* ===================================================================== *)

Module Sample.

(** An event with no optional field. *)
Definition plain (step status : string) (items : list string) : PipelineEvent :=
  mkEvent step status items None None None None None.

Definition clone_running : PipelineEvent := plain "clone" "running" ["cloning u1"].
Definition clone_done : PipelineEvent := plain "clone" "done" ["cloned u1"; "cloned u2"].
Definition discover_running : PipelineEvent := plain "discover" "running" [].
Definition policy_done : PipelineEvent := plain "policy" "done" ["2 tools classified"].
Definition disk_full : PipelineEvent := plain "pipeline" "error" ["disk full"].

Definition list_pets : ToolRow :=
  mkToolRow "list_pets" "GET" "/pets" "Read" "AutoExecute" 60.

(** A [policy] event that carries the tool table. *)
Definition policy_running_with_rows : PipelineEvent :=
  mkEvent "policy" "running" ["classifying"] None (Some [list_pets]) None None None.

(** The state right after a run has started from the initial state. *)
Definition started : state := start_reset initial_state.

(** The same run once [discover] has reported: the active step is 5. *)
Definition at_discover : state := handleEvent discover_running started.

(** A stand-in for [JSON.parse] that knows two payloads. *)
Definition parse (payload : string) : option PipelineEvent :=
  if String.eqb payload "clone running" then Some clone_running
  else if String.eqb payload "clone done" then Some clone_done
  else None.

Definition nl : string := String Js.newline EmptyString.

End Sample.

(* ===================================================================== *)
(** ** The whole of a run *)
(* ===================================================================== *)

(** What the server answers to the submission request: the [fetch] or the
    reading of its body throws, the response is not [ok], or it carries a
    run id. *)
Inductive start_reply :=
| StartThrows (name message : string)
| StartNotOk (statusText : string)
| StartOk (run_id : string).

(** What happens while the stream is read: a chunk arrives, or one of the
    user's handlers runs between two reads. *)
Inductive turn :=
| Chunk (text : string)
| Goto (index : Z)
| Stop.

(** How the read loop is left: [done], or [reader.read()] throws (the
    [AbortError] of a cancellation included). *)
Inductive stream_end :=
| EndOfData
| ReadThrows (name message : string).

(** What the server answers to the stream request; a response that is not
    [ok] or has no body is [StreamNotOk]. *)
Inductive stream_reply :=
| StreamThrows (name message : string)
| StreamNotOk
| StreamOk (turns : list turn) (ending : stream_end).

Section Run.

Variable JSON_parse : string -> option PipelineEvent.

Definition on_turn (bs : string * state) (t : turn) : string * state :=
  match t with
  | Chunk text => on_chunk JSON_parse bs text
  | Goto index => (fst bs, navigateToStep index (snd bs))
  | Stop => (fst bs, cancel (snd bs))
  end.

Definition stream_loop (turns : list turn) (bs : string * state) : string * state :=
  fold_left on_turn turns bs.

(** [startPipeline] from its call to the end of its [finally] clause, for
    given answers of the server. *)
Definition startPipeline (urls : list Js.text) (sr : start_reply) (tr : stream_reply)
    (w : world) : world :=
  let w := startPipeline_sync urls w in
  match sr with
  | StartThrows name message =>
      mkWorld (finish (catch_error name message (ui w))) (requests w)
  | StartNotOk statusText =>
      mkWorld (finish (catch_error "Error"
                         (String.append "Failed to start pipeline: " statusText) (ui w)))
              (requests w)
  | StartOk run_id =>
      let sent := requests w ++ [GET_stream run_id] in
      match tr with
      | StreamThrows name message =>
          mkWorld (finish (catch_error name message (ui w))) sent
      | StreamNotOk =>
          mkWorld (finish (catch_error "Error" "Failed to connect to pipeline stream" (ui w)))
                  sent
      | StreamOk turns ending =>
          let st := snd (stream_loop turns (EmptyString, ui w)) in
          match ending with
          | EndOfData => mkWorld (finish st) sent
          | ReadThrows name message =>
              mkWorld (finish (catch_error name message st)) sent
          end
      end
  end.

End Run.


(** The line that carries a payload. *)
Definition frame (payload : string) : string := String.append "data: " payload.

(** The actions of a trace that are not navigations. *)
Definition without_navigation (acts : list action) : list action :=
  List.filter (fun a => negb (is_navigate a)) acts.

(** The events of a sequence that the reducer files under index [n]. *)
Definition events_for (n : Z) (events : list PipelineEvent) : list PipelineEvent :=
  List.filter (fun event => bool_decide (STEP_INDEX_MAP !! ev_step event = Some n)) events.

(** The run-level failures of a sequence of events. *)
Definition is_run_failure (event : PipelineEvent) : bool :=
  String.eqb (ev_step event) "pipeline" && String.eqb (ev_status event) "error".

(* ===================================================================== *)
(** ** The URL form *)
(* ===================================================================== *)

(** [addUrl]: one more, empty, entry. *)
Definition addUrl (urls : list Js.text) : list Js.text := urls ++ [[]].

(** [urls.filter((_, idx) => idx !== i)], with the index of the first
    element as an argument. *)
Fixpoint filter_other_index (idx i : nat) (urls : list Js.text) : list Js.text :=
  match urls with
  | [] => []
  | u :: rest =>
      if Nat.eqb idx i then filter_other_index (S idx) i rest
      else u :: filter_other_index (S idx) i rest
  end.

(** [removeUrl]. *)
Definition removeUrl (i : nat) (urls : list Js.text) : list Js.text :=
  filter_other_index 0 i urls.


(* ===================================================================== *)
(** ** The step views *)
(* ===================================================================== *)

#[global] Instance StepStatus_eq_dec : EqDecision StepStatus.
Proof. solve_decision. Defined.

(** [data?.items ?? []] and [data?.status ?? "pending"]. *)
Definition view_items (data : option StepData) : list string :=
  match data with Some d => sd_items d | None => [] end.

Definition view_status (data : option StepData) : StepStatus :=
  match data with Some d => sd_status d | None => pending end.

(** [LiveProcessingStep]: whether the waiting notice is shown,
    [items.length === 0 && status === "pending"]. *)
Definition shows_waiting (data : option StepData) : bool :=
  (Nat.eqb (List.length (view_items data)) 0) && bool_decide (view_status data = pending).

(** [toggleTest] of [LiveTestStep], on the set of expanded test names. *)
Definition toggleTest (name : string) (prev : gset string) : gset string :=
  if bool_decide (name ∈ prev) then prev ∖ {[name]} else prev ∪ {[name]}.

(* ===================================================================== *)
(** ** The stepper *)
(* ===================================================================== *)

(** The four conditional classes of a pill of [PipelineStepper], in the
    order of the source, and whether it shows the check mark. *)
Record pill := mkPill {
  cls_completed : bool;
  cls_viewed : bool;
  cls_active : bool;
  cls_idle : bool;
  check_mark : bool
}.

(** The pill of step [i] for the props the page passes: [currentStep] is
    the viewed step. *)
Definition stepper_pill (st : state) (i : Z) : pill :=
  let isCompleted := bool_decide (i ∈ completedSteps st) in
  let isViewed := viewedStep st =? i in
  let isActive := activeStep st =? i in
  {| cls_completed := isCompleted;
     cls_viewed := isViewed && negb isCompleted;
     cls_active := isActive && negb isViewed && negb isCompleted;
     cls_idle := negb isCompleted && negb isViewed && negb isActive;
     check_mark := isCompleted |}.

Definition classes_on (p : pill) : nat :=
  Nat.b2n (cls_completed p) + Nat.b2n (cls_viewed p)
  + Nat.b2n (cls_active p) + Nat.b2n (cls_idle p).

(* ===================================================================== *)
(** ** More sample data *)
(* ===================================================================== *)

Module Fixture.

Definition lint_running : PipelineEvent := Sample.plain "lint" "running" ["linting"].
Definition ingest_error : PipelineEvent := Sample.plain "ingest" "error" ["spec is not valid"].
Definition mid_run : state :=
  handleEvents [Sample.clone_running; Sample.clone_done] Sample.started.
Definition repo : Js.text := Js.of_string "https://github.com/org/repo".
Definition padded_repo : Js.text := Js.of_string " https://github.com/org/repo ".
Definition idle : world := mkWorld initial_state [].

End Fixture.

(* ===================================================================== *)
(** ** Reading the step table *)
(* ===================================================================== *)

(** [STEP_INDEX_MAP] is an object literal, so the read
    [STEP_INDEX_MAP[event.step]] also finds what every object inherits from
    [Object.prototype]: for these names it is a function (for [__proto__],
    the prototype object), not [undefined]. *)
Definition object_prototype_names : list string :=
  [ "constructor"; "hasOwnProperty"; "isPrototypeOf"; "propertyIsEnumerable";
    "toLocaleString"; "toString"; "valueOf"; "__proto__";
    "__defineGetter__"; "__defineSetter__"; "__lookupGetter__"; "__lookupSetter__" ].

Definition is_inherited_name (name : string) : bool :=
  existsb (String.eqb name) object_prototype_names.

(** What the read yields: the number of an own property, the value
    inherited under the name, or [undefined]. *)
Inductive step_read :=
| own (n : Z)
| inherited (name : string)
| undefined.

Definition read_step_index (step : string) : step_read :=
  match STEP_INDEX_MAP !! step with
  | Some n => own n
  | None => if is_inherited_name step then inherited step else undefined
  end.

(** The events and traces whose reads of the table are decided by its own
    properties; on these [handleEvent] above is the reducer of the source
    (lemma [handleEvent_is_exact] below). *)
Definition reads_own (event : PipelineEvent) : bool :=
  negb (is_inherited_name (ev_step event)).

Definition trace_reads_own (acts : list action) : bool :=
  forallb (fun a => match a with Receive event => reads_own event | _ => true end) acts.

(** The reducer on every event, inherited names included.  A step pointer
    can then be [NaN], and the keys of [stepData] and the members of
    [completedSteps] are numbers or what an inherited value turns into: the
    string of the value as a key, the value itself as a member, both named
    here by the property name they were read under. *)
Module Exact.

Inductive number := Num (z : Z) | NaN.

(** [Math.min] and [Math.max]: [NaN] as soon as an argument is. *)
Definition math_min (a b : number) : number :=
  match a, b with Num x, Num y => Num (Z.min x y) | _, _ => NaN end.

Definition math_max (a b : number) : number :=
  match a, b with Num x, Num y => Num (Z.max x y) | _, _ => NaN end.

(** ToNumber of the value read, and of [stepIdx + 1] (for an inherited
    value, the string of the value followed by [1]). *)
Definition to_number (r : step_read) : number :=
  match r with own n => Num n | _ => NaN end.

Definition plus_one (r : step_read) : number :=
  match r with own n => Num (n + 1) | _ => NaN end.

(** The property key and the set member the value read stands for. *)
Definition key_of (r : step_read) : Z + string :=
  match r with
  | own n => inl n
  | inherited name => inr name
  | undefined => inr "undefined"
  end.

Record state := mkState {
  isRunning : bool;
  activeStep : number;
  viewedStep : number;
  userNavigatedRef : bool;
  completedSteps : gset (Z + string);
  stepData : gmap (Z + string) StepData;
  run_error : option string
}.

Definition handleEvent (event : PipelineEvent) (st : state) : state :=
  if String.eqb (ev_step event) "pipeline" then
    if String.eqb (ev_status event) "error"
    then mkState (isRunning st) (activeStep st) (viewedStep st) (userNavigatedRef st)
           (completedSteps st) (stepData st) (Some (Js.join "; " (ev_items event)))
    else st
  else
    match read_step_index (ev_step event) with
    | undefined => st
    | stepIdx =>
        let data := event_data event in
        let stored := <[key_of stepIdx := data]> (stepData st) in
        if String.eqb (ev_status event) "running" then
          let clamped := math_min (to_number stepIdx) (Num MAX_STEP) in
          mkState (isRunning st) clamped
            (if negb (userNavigatedRef st) then clamped else viewedStep st)
            (userNavigatedRef st) (completedSteps st) stored (run_error st)
        else if String.eqb (ev_status event) "done" then
          let next := math_min (plus_one stepIdx) (Num MAX_STEP) in
          mkState (isRunning st) (math_max (activeStep st) next)
            (if negb (userNavigatedRef st) then math_max (viewedStep st) next
             else viewedStep st)
            (userNavigatedRef st) (completedSteps st ∪ {[key_of stepIdx]}) stored
            (run_error st)
        else
          mkState (isRunning st) (activeStep st) (viewedStep st) (userNavigatedRef st)
            (completedSteps st) stored (run_error st)
    end.

End Exact.

(** A state of the hook among the exact ones: its numbers as they are. *)
Definition embed (st : state) : Exact.state :=
  Exact.mkState (isRunning st) (Exact.Num (activeStep st)) (Exact.Num (viewedStep st))
    (userNavigatedRef st) (set_map inl (completedSteps st)) (kmap inl (stepData st))
    (run_error st).

Module Inherited.

Definition toString_done : PipelineEvent := Sample.plain "toString" "done" [].
Definition constructor_running : PipelineEvent := Sample.plain "constructor" "running" [].

End Inherited.

(* ===================================================================== *)
(** * Properties *)
(* ===================================================================== *)

(** ** The step registry *)

Lemma STEP_INDEX_MAP_range (id : string) (n : Z) :
  STEP_INDEX_MAP !! id = Some n -> 1 <= n <= MAX_STEP.
Proof.
  intros H. apply elem_of_list_to_map_2 in H.
  unfold MAX_STEP.
  repeat (apply elem_of_cons in H as [H | H]; [inversion H; lia |]).
  inversion H.
Qed.

Lemma pipeline_is_unmapped : STEP_INDEX_MAP !! "pipeline" = None.
Proof. reflexivity. Qed.

Lemma mapped_is_not_meta (id : string) (n : Z) :
  STEP_INDEX_MAP !! id = Some n -> String.eqb id "pipeline" = false.
Proof.
  intros H. destruct (String.eqb_spec id "pipeline") as [-> | _]; [| reflexivity].
  rewrite pipeline_is_unmapped in H. discriminate.
Qed.

(** ** Case analysis of the reducer *)

Lemma handleEvent_mapped (event : PipelineEvent) (st : state) (n : Z) :
  STEP_INDEX_MAP !! ev_step event = Some n ->
  handleEvent event st =
    let st1 := setStepData (fun prev => <[n := event_data event]> prev) st in
    if String.eqb (ev_status event) "running" then
      let st2 := setActiveStep (fun _ => Z.min n MAX_STEP) st1 in
      if negb (userNavigatedRef st)
      then setViewedStep (fun _ => Z.min n MAX_STEP) st2 else st2
    else if String.eqb (ev_status event) "done" then
      let st2 := setCompletedSteps (fun prev => prev ∪ {[n]}) st1 in
      let st3 := setActiveStep (fun prev => Z.max prev (Z.min (n + 1) MAX_STEP)) st2 in
      if negb (userNavigatedRef st)
      then setViewedStep (fun prev => Z.max prev (Z.min (n + 1) MAX_STEP)) st3 else st3
    else st1.
Proof.
  intros H. unfold handleEvent.
  rewrite (mapped_is_not_meta _ _ H), H. reflexivity.
Qed.

Lemma handleEvent_completed_grows (event : PipelineEvent) (st : state) :
  completedSteps st ⊆ completedSteps (handleEvent event st).
Proof. reducer_cases event st; set_solver. Qed.

Lemma handleEvents_completed_grow (events : list PipelineEvent) (st : state) :
  completedSteps st ⊆ completedSteps (handleEvents events st).
Proof.
  revert st. induction events as [| event events IH]; intros st; cbn.
  - reflexivity.
  - etransitivity; [apply (handleEvent_completed_grows event) | apply IH].
Qed.

Lemma handleEvent_ref (event : PipelineEvent) (st : state) :
  userNavigatedRef (handleEvent event st) = userNavigatedRef st.
Proof. reducer_cases event st; congruence. Qed.

Lemma handleEvent_viewed_pinned (event : PipelineEvent) (st : state) :
  userNavigatedRef st = true ->
  viewedStep (handleEvent event st) = viewedStep st.
Proof. intros H. reducer_cases event st; congruence. Qed.

Lemma handleEvent_following (event : PipelineEvent) (st : state) :
  userNavigatedRef st = false ->
  viewedStep st = activeStep st ->
  viewedStep (handleEvent event st) = activeStep (handleEvent event st).
Proof. intros H E. reducer_cases event st; congruence. Qed.

(** ** Monotonicity of the run progress *)

Lemma handleEvent_active_step (event : PipelineEvent) (st : state) :
  activeStep st <= activeStep (handleEvent event st) \/
  (ev_status event = "running" /\
   exists n, STEP_INDEX_MAP !! ev_step event = Some n /\
             activeStep (handleEvent event st) = n).
Proof.
  reducer_cases event st; try (left; lia).
  all: right; split; [assumption |]; eexists; split; [reflexivity |].
  all: match goal with H : STEP_INDEX_MAP !! _ = Some _ |- _ =>
         apply STEP_INDEX_MAP_range in H end; lia.
Qed.

Lemma handleEvents_snoc (events : list PipelineEvent) (event : PipelineEvent) (st : state) :
  handleEvents (events ++ [event]) st = handleEvent event (handleEvents events st).
Proof. unfold handleEvents. rewrite fold_left_app. reflexivity. Qed.

(** C1 (amended).  Over every sequence of events whose steps are read
    from the own properties of the table (no step is named like a member
    of [Object.prototype]), the completed set only grows, and the active
    step at the end is at least the active step at the start unless the
    sequence holds a [running] event for a mapped step whose index is below
    the active step at the start: the reducer assigns the index of a
    [running] step, it only takes the maximum on [done]. *)
Theorem completed_grows_active_drops_only_on_running :
  forall (events : list PipelineEvent) (st : state),
    forallb reads_own events = true ->
    completedSteps st ⊆ completedSteps (handleEvents events st) /\
    (activeStep st <= activeStep (handleEvents events st) \/
     exists event n,
       In event events /\ ev_status event = "running" /\
       STEP_INDEX_MAP !! ev_step event = Some n /\ n < activeStep st).
Proof.
  intros events st _. split; [apply handleEvents_completed_grow |].
  induction events as [| event events IH] using rev_ind.
  - left. cbn. lia.
  - rewrite handleEvents_snoc.
    destruct (handleEvent_active_step event (handleEvents events st))
      as [Hle | (Hrun & n & Hn & Hact)].
    + destruct IH as [IH | (e & m & Hin & He & Hm & Hlt)].
      * left. lia.
      * right. exists e, m. rewrite in_app_iff. auto.
    + destruct (Z_lt_le_dec n (activeStep st)) as [Hlt | Hge].
      * right. exists event, n. rewrite in_app_iff. cbn. auto.
      * left. lia.
Qed.

Lemma completed_grows_active_drops_only_on_running_witness :
  let events := [Sample.discover_running; Sample.clone_done] in
  completedSteps Sample.started ⊆ completedSteps (handleEvents events Sample.started) /\
  (activeStep Sample.started <= activeStep (handleEvents events Sample.started) \/
   exists event n,
     In event events /\ ev_status event = "running" /\
     STEP_INDEX_MAP !! ev_step event = Some n /\ n < activeStep Sample.started).
Proof.
  intros events.
  apply (completed_grows_active_drops_only_on_running events Sample.started).
  reflexivity.
Defined.

(** C1, as stated, fails: in a run where [discover] is running (active step
    5) a [running] event for [clone] brings the active step back to 1. *)
Lemma running_event_lowers_active_step :
  activeStep Sample.at_discover = 5 /\
  activeStep (handleEvent Sample.clone_running Sample.at_discover) = 1.
Proof. split; reflexivity. Qed.

(** ** Advancement of the active step *)

(** C2 (amended).  For an event whose step maps to index [n]: on [running]
    the active step becomes [min n MAX_STEP], whatever it was before, and the
    completed set is unchanged; on [done], [n] joins the completed set and
    the active step becomes [max activeStep (min (n+1) MAX_STEP)], whether
    or not an event for step [n+1] has arrived. *)
Theorem handleEvent_advances (event : PipelineEvent) (st : state) (n : Z) :
  STEP_INDEX_MAP !! ev_step event = Some n ->
  (ev_status event = "running" ->
     activeStep (handleEvent event st) = Z.min n MAX_STEP /\
     completedSteps (handleEvent event st) = completedSteps st) /\
  (ev_status event = "done" ->
     completedSteps (handleEvent event st) = completedSteps st ∪ {[n]} /\
     activeStep (handleEvent event st)
       = Z.max (activeStep st) (Z.min (n + 1) MAX_STEP)).
Proof.
  intros Hn. rewrite (handleEvent_mapped event st n Hn).
  split; intros Hs; rewrite Hs; cbn; destruct (userNavigatedRef st); cbn; auto.
Qed.

Lemma handleEvent_advances_witness :
  completedSteps (handleEvent Sample.clone_done Sample.started)
    = completedSteps Sample.started ∪ {[1]} /\
  activeStep (handleEvent Sample.clone_done Sample.started)
    = Z.max (activeStep Sample.started) (Z.min (1 + 1) MAX_STEP).
Proof.
  apply (handleEvent_advances Sample.clone_done Sample.started 1); reflexivity.
Defined.

(** C2, as stated, fails on [running]: with the active step at 5 a [running]
    event for [clone] (index 1) does not leave [max 5 (min 1 MAX_STEP)]. *)
Lemma running_event_is_not_a_maximum :
  STEP_INDEX_MAP !! ev_step Sample.clone_running = Some 1 /\
  ev_status Sample.clone_running = "running" /\
  Z.max (activeStep Sample.at_discover) (Z.min 1 MAX_STEP) = 5 /\
  activeStep (handleEvent Sample.clone_running Sample.at_discover) = 1.
Proof. repeat split; reflexivity. Qed.

(** ** Step data *)

Lemma handleEvent_step_data (event : PipelineEvent) (st : state) :
  stepData (handleEvent event st) =
    if String.eqb (ev_step event) "pipeline" then stepData st
    else match STEP_INDEX_MAP !! ev_step event with
         | Some n => <[n := event_data event]> (stepData st)
         | None => stepData st
         end.
Proof. reducer_cases event st; reflexivity. Qed.

(** C3 (amended).  A mapped event for index [n] replaces the whole entry
    [stepData[n]] by the record built from that event alone: [items] from
    the event, and each optional field as the event carries it, absent when
    the event omits it ([sandbox] also when it is the empty string),
    whatever was stored before.  The entries of the other indices are
    untouched. *)
Theorem handleEvent_replaces_step_data (event : PipelineEvent) (st : state) (n : Z) :
  STEP_INDEX_MAP !! ev_step event = Some n ->
  (exists d : StepData,
     stepData (handleEvent event st) !! n = Some d /\
     sd_items d = ev_items event /\
     sd_status d = (if String.eqb (ev_status event) "done" then done
                    else if String.eqb (ev_status event) "error" then error
                    else running) /\
     sd_toolRows d = ev_toolRows event /\
     sd_testResults d = ev_testResults event /\
     sd_passed d = ev_passed event /\
     sd_total d = ev_total event /\
     sd_sandbox d = (if decide (ev_sandbox event = Some EmptyString)
                     then None else ev_sandbox event)) /\
  (forall m : Z, m <> n -> stepData (handleEvent event st) !! m = stepData st !! m).
Proof.
  intros Hn. rewrite handleEvent_step_data, (mapped_is_not_meta _ _ Hn), Hn.
  split.
  - exists (event_data event). rewrite lookup_insert_eq.
    repeat split. cbn.
    destruct (ev_sandbox event) as [s |]; [| reflexivity].
    destruct (String.eqb_spec s EmptyString) as [-> | Hs].
    + reflexivity.
    + destruct (decide (Some s = Some EmptyString)) as [E | _]; [| reflexivity].
      inversion E. contradiction.
  - intros m Hm. apply lookup_insert_ne. congruence.
Qed.

Lemma handleEvent_replaces_step_data_witness :
  exists d : StepData,
    stepData (handleEvent Sample.policy_done Sample.started) !! 7 = Some d /\
    sd_items d = ["2 tools classified"] /\
    sd_toolRows d = None.
Proof.
  destruct (handleEvent_replaces_step_data Sample.policy_done Sample.started 7 eq_refl)
    as [(d & Hd & Hitems & _ & Hrows & _) _].
  exists d. auto.
Defined.

(** C3, as stated, fails: the tool table stored by a [policy] event is gone
    after the next [policy] event that carries none. *)
Lemma omitted_field_is_dropped :
  let st := handleEvent Sample.policy_running_with_rows Sample.started in
  ev_toolRows Sample.policy_done = None /\
  sd_toolRows <$> stepData st !! 7 = Some (Some [Sample.list_pets]) /\
  sd_toolRows <$> stepData (handleEvent Sample.policy_done st) !! 7 = Some None.
Proof. repeat split; reflexivity. Qed.

(** ** Meta-events *)

(** C7.  A meta-event (step [pipeline]) with status [error] sets the run
    error to its items joined by [; ] and changes nothing else; a
    meta-event with any other status changes nothing. *)
Theorem handleEvent_meta (event : PipelineEvent) (st : state) :
  ev_step event = "pipeline" ->
  (ev_status event = "error" ->
     run_error (handleEvent event st) = Some (Js.join "; " (ev_items event)) /\
     activeStep (handleEvent event st) = activeStep st /\
     viewedStep (handleEvent event st) = viewedStep st /\
     completedSteps (handleEvent event st) = completedSteps st /\
     stepData (handleEvent event st) = stepData st /\
     userNavigatedRef (handleEvent event st) = userNavigatedRef st /\
     isRunning (handleEvent event st) = isRunning st) /\
  (ev_status event <> "error" -> handleEvent event st = st).
Proof.
  intros Hstep. unfold handleEvent. rewrite Hstep. cbn.
  split; intros Hstatus.
  - rewrite Hstatus. cbn. repeat split.
  - apply String.eqb_neq in Hstatus. rewrite Hstatus. reflexivity.
Qed.

Lemma handleEvent_meta_witness :
  run_error (handleEvent Sample.disk_full Sample.at_discover) = Some "disk full" /\
  activeStep (handleEvent Sample.disk_full Sample.at_discover) = 5 /\
  stepData (handleEvent Sample.disk_full Sample.at_discover)
    = stepData Sample.at_discover.
Proof.
  destruct (handleEvent_meta Sample.disk_full Sample.at_discover eq_refl) as [H _].
  destruct (H eq_refl) as (He & Ha & _ & _ & Hd & _).
  split; [exact He | split; [exact Ha | exact Hd]].
Defined.

(** ** Navigation *)

(** C8.  For every integer [x], [navigateToStep x] sets the viewed step to
    [x] clamped into [0, MAX_STEP] (0 below the range, [MAX_STEP] above it,
    [x] itself inside), turns following off and leaves the rest of the
    state alone. *)
Theorem navigateToStep_clamps (x : Z) (st : state) :
  let st' := navigateToStep x st in
  0 <= viewedStep st' <= MAX_STEP /\
  (x < 0 /\ viewedStep st' = 0 \/
   0 <= x <= MAX_STEP /\ viewedStep st' = x \/
   MAX_STEP < x /\ viewedStep st' = MAX_STEP) /\
  following st' = false /\
  activeStep st' = activeStep st /\
  completedSteps st' = completedSteps st /\
  stepData st' = stepData st /\
  run_error st' = run_error st /\
  isRunning st' = isRunning st.
Proof.
  cbn. unfold MAX_STEP. repeat split; lia.
Qed.

(** ** Following and pinning the view *)

Lemma perform_following (a : action) (st : state) :
  is_navigate a = false ->
  userNavigatedRef st = false ->
  viewedStep st = activeStep st ->
  userNavigatedRef (perform a st) = false /\
  viewedStep (perform a st) = activeStep (perform a st).
Proof.
  intros Ha Href Heq. destruct a as [event | index | | name message |]; cbn.
  - split; [rewrite handleEvent_ref; exact Href |].
    apply handleEvent_following; assumption.
  - discriminate Ha.
  - auto.
  - unfold catch_error. destruct (negb (String.eqb name "AbortError")); cbn; auto.
  - auto.
Qed.

Lemma perform_all_following (acts : list action) (st : state) :
  forallb (fun a => negb (is_navigate a)) acts = true ->
  userNavigatedRef st = false ->
  viewedStep st = activeStep st ->
  userNavigatedRef (perform_all acts st) = false /\
  viewedStep (perform_all acts st) = activeStep (perform_all acts st).
Proof.
  revert st. induction acts as [| a acts IH]; intros st Hacts Href Heq.
  - auto.
  - cbn in Hacts. apply andb_prop in Hacts as [Ha Hacts].
    apply negb_true_iff in Ha.
    destruct (perform_following a st Ha Href Heq) as [Href' Heq'].
    apply (IH (perform a st) Hacts Href' Heq').
Qed.

Lemma perform_keeps_pinned (a : action) (st : state) :
  userNavigatedRef st = true -> userNavigatedRef (perform a st) = true.
Proof.
  intros H. destruct a as [event | index | | name message |]; cbn.
  - rewrite handleEvent_ref. exact H.
  - reflexivity.
  - exact H.
  - unfold catch_error. destruct (negb (String.eqb name "AbortError")); exact H.
  - exact H.
Qed.

Lemma perform_all_keeps_pinned (acts : list action) (st : state) :
  userNavigatedRef st = true -> userNavigatedRef (perform_all acts st) = true.
Proof.
  revert st. induction acts as [| a acts IH]; intros st H; cbn.
  - exact H.
  - apply IH, perform_keeps_pinned, H.
Qed.

(** C5.  Within a run, as long as no navigation has happened the viewed
    step equals the active step at every point (and following is on),
    whatever events, cancellations and faults have been processed; once
    [navigateToStep] has been called, following is off at every later point
    of the run, whatever comes next, and no event changes the viewed step
    any more. *)
Theorem viewed_follows_until_navigation :
  (forall (st0 : state) (acts : list action),
     forallb (fun a => negb (is_navigate a)) acts = true ->
     let st := perform_all acts (start_reset st0) in
     viewedStep st = activeStep st /\ following st = true) /\
  (forall (st : state) (index : Z) (acts : list action) (event : PipelineEvent),
     let st' := perform_all acts (navigateToStep index st) in
     following st' = false /\
     viewedStep (handleEvent event st') = viewedStep st').
Proof.
  split.
  - intros st0 acts Hacts st.
    destruct (perform_all_following acts (start_reset st0) Hacts) as [Href Heq];
      [reflexivity | reflexivity |].
    subst st. unfold following. rewrite Href. auto.
  - intros st index acts event st'.
    assert (Hpin : userNavigatedRef st' = true)
      by (apply perform_all_keeps_pinned; reflexivity).
    split.
    + unfold following. rewrite Hpin. reflexivity.
    + apply handleEvent_viewed_pinned, Hpin.
Qed.

(** ** Index ranges *)

Lemma start_reset_in_range (st : state) : indices_in_range (start_reset st).
Proof.
  split; cbn; intros n Hn.
  - apply elem_of_union in Hn as [Hn | Hn].
    + apply not_elem_of_empty in Hn. contradiction.
    + apply elem_of_singleton in Hn. unfold MAX_STEP. lia.
  - destruct Hn as [d Hd]. discriminate Hd.
Qed.

Lemma handleEvent_in_range (event : PipelineEvent) (st : state) :
  indices_in_range st -> indices_in_range (handleEvent event st).
Proof.
  intros [Hc Hd]. split.
  - intros n. reducer_cases event st; intros Hn; try (apply Hc; exact Hn).
    all: apply elem_of_union in Hn as [Hn | Hn]; [apply Hc; exact Hn |].
    all: apply elem_of_singleton in Hn; subst n.
    all: match goal with H : STEP_INDEX_MAP !! _ = Some _ |- _ =>
           apply STEP_INDEX_MAP_range in H end; lia.
  - intros n. rewrite handleEvent_step_data.
    destruct (String.eqb (ev_step event) "pipeline"); [apply Hd |].
    destruct (STEP_INDEX_MAP !! ev_step event) as [k |] eqn:Hk; [| apply Hd].
    destruct (decide (k = n)) as [-> | Hne].
    + intros _. apply STEP_INDEX_MAP_range in Hk. exact Hk.
    + rewrite lookup_insert_ne by exact Hne. apply Hd.
Qed.

Lemma perform_in_range (a : action) (st : state) :
  indices_in_range st -> indices_in_range (perform a st).
Proof.
  destruct a as [event | index | | name message |]; cbn.
  - apply handleEvent_in_range.
  - intros H. exact H.
  - intros H. exact H.
  - unfold catch_error. destruct (negb (String.eqb name "AbortError")); intros H; exact H.
  - intros H. exact H.
Qed.

Lemma perform_completed_grows (a : action) (st : state) :
  completedSteps st ⊆ completedSteps (perform a st).
Proof.
  destruct a as [event | index | | name message |]; cbn;
    [apply handleEvent_completed_grows | | | |]; try reflexivity.
  unfold catch_error. destruct (negb (String.eqb name "AbortError")); reflexivity.
Qed.

Lemma perform_all_invariant (acts : list action) (st : state) :
  indices_in_range st ->
  indices_in_range (perform_all acts st) /\
  completedSteps st ⊆ completedSteps (perform_all acts st).
Proof.
  revert st. induction acts as [| a acts IH]; intros st H; cbn.
  - split; [exact H | reflexivity].
  - destruct (IH (perform a st) (perform_in_range a st H)) as [Hr Hs].
    split; [exact Hr |].
    etransitivity; [apply (perform_completed_grows a) | exact Hs].
Qed.

(** Every identifier of [STEP_INDEX_MAP] maps into [1, MAX_STEP] and the
    reducer never writes [stepData[0]]; at every point of a run whose
    events read the own properties of the table, after any such events,
    navigations, cancellations and faults, step 0 is completed, every
    completed index lies in [0, MAX_STEP] and every index with step data
    lies in [1, MAX_STEP]. *)
Theorem own_reads_keep_indices_in_range (st0 : state) (acts : list action) :
  trace_reads_own acts = true ->
  let st := perform_all acts (start_reset st0) in
  (forall (id : string) (n : Z),
     STEP_INDEX_MAP !! id = Some n -> 1 <= n <= MAX_STEP) /\
  (forall (event : PipelineEvent) (st' : state),
     stepData (handleEvent event st') !! 0 = stepData st' !! 0) /\
  0 ∈ completedSteps st /\
  stepData st !! 0 = None /\
  (forall n : Z, n ∈ completedSteps st -> 0 <= n <= MAX_STEP) /\
  (forall n : Z, is_Some (stepData st !! n) -> 1 <= n <= MAX_STEP).
Proof.
  intros _ st.
  split; [exact STEP_INDEX_MAP_range |]. split.
  - intros event st'. rewrite handleEvent_step_data.
    destruct (String.eqb (ev_step event) "pipeline"); [reflexivity |].
    destruct (STEP_INDEX_MAP !! ev_step event) as [k |] eqn:Hk; [| reflexivity].
    apply STEP_INDEX_MAP_range in Hk. apply lookup_insert_ne. lia.
  - destruct (perform_all_invariant acts (start_reset st0) (start_reset_in_range st0))
      as [[Hc Hd] Hs].
    fold st in Hc, Hd, Hs. split; [| split; [| split; assumption]].
    + apply Hs. cbn. apply elem_of_union_r, elem_of_singleton. reflexivity.
    + destruct (stepData st !! 0) as [d |] eqn:E; [| reflexivity].
      assert (1 <= 0 <= MAX_STEP) by (apply Hd; rewrite E; eauto). lia.
Qed.

Lemma own_reads_keep_indices_in_range_witness :
  let st := perform_all [Receive Sample.clone_running; Navigate 7;
                         Receive Sample.clone_done; Cancel]
              (start_reset initial_state) in
  0 ∈ completedSteps st /\ stepData st !! 0 = None.
Proof.
  intros st.
  destruct (own_reads_keep_indices_in_range initial_state
              [Receive Sample.clone_running; Navigate 7;
               Receive Sample.clone_done; Cancel] eq_refl)
    as (_ & _ & H0 & Hd & _).
  split; [exact H0 | exact Hd].
Defined.

(** ** Validation of a start request *)

Lemma trimStart_blank (u : Js.text) : blank u -> Js.trimStart u = [].
Proof.
  induction 1 as [| c u Hc _ IH]; cbn.
  - reflexivity.
  - rewrite Hc. exact IH.
Qed.

Lemma trim_blank (u : Js.text) : blank u -> Js.trim u = [].
Proof.
  intros H. unfold Js.trim, Js.trimEnd. rewrite (trimStart_blank u H). reflexivity.
Qed.

Lemma trimStart_visible (u : Js.text) :
  ~ blank u -> exists c rest, Js.trimStart u = c :: rest /\ Js.is_white_space c = false.
Proof.
  induction u as [| c u IH]; intros H.
  - exfalso. apply H. constructor.
  - cbn. destruct (Js.is_white_space c) eqn:Hc.
    + apply IH. intros Hu. apply H. constructor; assumption.
    + exists c, u. auto.
Qed.

Lemma trimStart_app_visible (u : Js.text) (c : Js.code_unit) :
  Js.is_white_space c = false ->
  exists d rest, Js.trimStart (u ++ [c]) = d :: rest.
Proof.
  intros Hc. induction u as [| a u IH]; cbn.
  - rewrite Hc. eauto.
  - destruct (Js.is_white_space a); [exact IH | eauto].
Qed.

Lemma trim_visible (u : Js.text) : ~ blank u -> Js.truthy (Js.trim u) = true.
Proof.
  intros H. destruct (trimStart_visible u H) as (c & rest & E & Hc).
  unfold Js.trim, Js.trimEnd. rewrite E. cbn [rev].
  destruct (trimStart_app_visible (rev rest) c Hc) as (d & tl & E').
  rewrite E'. cbn [rev].
  destruct (rev tl ++ [d]) as [| x xs] eqn:Ex; [| reflexivity].
  destruct (rev tl); discriminate Ex.
Qed.

Lemma filter_blank (urls : list Js.text) :
  Forall blank urls -> List.filter (fun u => Js.truthy (Js.trim u)) urls = [].
Proof.
  induction 1 as [| u urls Hu _ IH]; cbn.
  - reflexivity.
  - rewrite (trim_blank u Hu). cbn. exact IH.
Qed.

(** C4.  A start request whose URL list holds only blank entries (white
    space only; the empty list is one such list) does nothing: the handler
    of the start button filters the blank entries out and, with none left,
    does not call [startPipeline]; no request is issued and the hook state
    is unchanged, so nothing marks a run as started. *)
Theorem blank_start_is_rejected (urls : list Js.text) (w : world) :
  Forall blank urls ->
  requests (handleStart urls w) = requests w /\
  ui (handleStart urls w) = ui w /\
  handleStart urls w = w.
Proof.
  intros H. unfold handleStart. rewrite (filter_blank urls H). cbn.
  repeat split.
Qed.

Lemma blank_start_is_rejected_witness :
  let w := mkWorld initial_state [] in
  let urls := [Js.of_string "  "; []; [9; 160; 12288]%N] in
  requests (handleStart urls w) = [] /\
  isRunning (ui (handleStart urls w)) = false /\
  handleStart [] w = w.
Proof.
  intros w urls.
  assert (Hurls : Forall blank urls)
    by (repeat constructor).
  destruct (blank_start_is_rejected urls w Hurls) as (Hreq & Hui & _).
  destruct (blank_start_is_rejected [] w ltac:(constructor)) as (_ & _ & Hnil).
  split; [exact Hreq | split; [rewrite Hui; reflexivity | exact Hnil]].
Defined.


(** ** Text and lines *)

Lemma append_cons (c : ascii) (s t : string) :
  String.append (String c s) t = String c (String.append s t).
Proof. reflexivity. Qed.

Lemma append_empty_l (t : string) : String.append EmptyString t = t.
Proof. reflexivity. Qed.

Lemma append_empty_r (s : string) : String.append s EmptyString = s.
Proof.
  induction s as [| c s IH]; [reflexivity |].
  rewrite append_cons, IH. reflexivity.
Qed.

Lemma append_assoc (s t u : string) :
  String.append (String.append s t) u = String.append s (String.append t u).
Proof.
  induction s as [| c s IH]; [reflexivity |].
  rewrite !append_cons, IH. reflexivity.
Qed.

Lemma stream_text_cons (chunk : string) (chunks : list string) :
  stream_text (chunk :: chunks) = String.append chunk (stream_text chunks).
Proof. reflexivity. Qed.

Lemma stream_text_app (chunks chunks' : list string) :
  stream_text (chunks ++ chunks')
    = String.append (stream_text chunks) (stream_text chunks').
Proof.
  induction chunks as [| chunk chunks IH].
  - reflexivity.
  - rewrite <- app_comm_cons, !stream_text_cons, IH, append_assoc. reflexivity.
Qed.

Lemma split_newline_nonempty (s : string) : Js.split_newline s <> [].
Proof.
  destruct s as [| c s]; cbn; [discriminate |].
  destruct (Ascii.eqb c Js.newline); [discriminate |].
  destruct (Js.split_newline s); discriminate.
Qed.

(** A text without newline is a single unterminated line. *)
Lemma split_newline_single (s : string) :
  has_newline s = false -> Js.split_newline s = [s].
Proof.
  induction s as [| c s IH]; cbn; [reflexivity |].
  destruct (Ascii.eqb c Js.newline); cbn; [discriminate |].
  intros H. rewrite (IH H). reflexivity.
Qed.

(** Splitting after a complete first line. *)
Lemma split_newline_line (l rest : string) :
  has_newline l = false ->
  Js.split_newline (String.append l (String Js.newline rest))
    = l :: Js.split_newline rest.
Proof.
  induction l as [| c l IH]; intros H.
  - rewrite append_empty_l. cbn. reflexivity.
  - cbn in H. rewrite append_cons. cbn.
    destruct (Ascii.eqb c Js.newline); cbn in H; [discriminate |].
    rewrite (IH H). reflexivity.
Qed.

(** What is left in the buffer never holds a newline. *)
Lemma unterminated_has_no_newline (s : string) :
  has_newline (unterminated s) = false.
Proof.
  unfold unterminated. induction s as [| c s IH]; cbn; [reflexivity |].
  destruct (Ascii.eqb c Js.newline) eqn:Hc.
  - destruct (Js.split_newline s) as [| l ls] eqn:E.
    + destruct (split_newline_nonempty s E).
    + exact IH.
  - destruct (Js.split_newline s) as [| l ls] eqn:E.
    + destruct (split_newline_nonempty s E).
    + destruct ls as [| l' ls]; cbn in *.
      * rewrite Hc, IH. reflexivity.
      * exact IH.
Qed.

(** The lines of a text followed by more text: the complete lines of the
    text, then the lines of its unterminated rest followed by the new text.
    This is the step of the read loop. *)
Lemma split_newline_app (s t : string) :
  Js.split_newline (String.append s t)
    = complete_lines s ++ Js.split_newline (String.append (unterminated s) t).
Proof.
  unfold complete_lines, unterminated.
  induction s as [| c s IH].
  - reflexivity.
  - rewrite append_cons. cbn [Js.split_newline].
    destruct (Js.split_newline s) as [| l ls] eqn:E.
    { destruct (split_newline_nonempty s E). }
    destruct (Ascii.eqb c Js.newline) eqn:Hc.
    + rewrite IH. reflexivity.
    + rewrite IH. destruct ls as [| l' ls].
      * cbn. rewrite append_cons. cbn [Js.split_newline]. rewrite Hc. reflexivity.
      * reflexivity.
Qed.

Lemma complete_lines_app (s t : string) :
  complete_lines (String.append s t)
    = complete_lines s ++ complete_lines (String.append (unterminated s) t).
Proof.
  unfold complete_lines at 1. rewrite split_newline_app.
  apply removelast_app, split_newline_nonempty.
Qed.

Lemma unterminated_app (s t : string) :
  unterminated (String.append s t) = unterminated (String.append (unterminated s) t).
Proof.
  unfold unterminated at 1. rewrite split_newline_app, last_app.
  fold (unterminated (String.append (unterminated s) t)).
  unfold unterminated at 2.
  destruct (last (Js.split_newline (String.append (unterminated s) t))) eqn:E.
  - reflexivity.
  - apply last_None in E. destruct (split_newline_nonempty _ E).
Qed.

(** An unterminated tail adds no complete line. *)
Lemma complete_lines_tail (s tail : string) :
  has_newline tail = false ->
  complete_lines (String.append s tail) = complete_lines s.
Proof.
  intros H. rewrite complete_lines_app.
  assert (Hn : has_newline (String.append (unterminated s) tail) = false).
  { pose proof (unterminated_has_no_newline s) as Hu.
    induction (unterminated s) as [| c u IH]; [exact H |].
    rewrite append_cons. cbn in *.
    destruct (Ascii.eqb c Js.newline); [discriminate |]. apply IH, Hu. }
  unfold complete_lines at 2. rewrite (split_newline_single _ Hn). cbn.
  apply app_nil_r.
Qed.

Lemma unlines_cons (l : string) (lines : list string) :
  unlines (l :: lines) = String.append l (String Js.newline (unlines lines)).
Proof. reflexivity. Qed.

(** The complete lines of [unlines lines] followed by an unterminated tail
    are [lines]. *)
Lemma complete_lines_unlines (lines : list string) (tail : string) :
  Forall (fun l => has_newline l = false) lines ->
  has_newline tail = false ->
  complete_lines (String.append (unlines lines) tail) = lines.
Proof.
  intros Hl Ht. unfold complete_lines.
  assert (E : Js.split_newline (String.append (unlines lines) tail) = lines ++ [tail]).
  { induction Hl as [| l lines Hnl _ IH].
    - apply split_newline_single, Ht.
    - rewrite unlines_cons, append_assoc, append_cons,
        (split_newline_line _ _ Hnl), IH.
      reflexivity. }
  rewrite E. apply removelast_last.
Qed.

(** ** The read loop *)

Section DecoderProperties.

Variable JSON_parse : string -> option PipelineEvent.

Lemma on_lines_app (lines lines' : list string) (st : state) :
  on_lines JSON_parse (lines ++ lines') st
    = on_lines JSON_parse lines' (on_lines JSON_parse lines st).
Proof. unfold on_lines. apply fold_left_app. Qed.

Lemma on_line_malformed (line : string) (st : state) :
  malformed JSON_parse line -> on_line JSON_parse line st = st.
Proof.
  unfold on_line. intros [H | H]; rewrite H; [reflexivity |].
  destruct (Js.startsWith "data: " line); reflexivity.
Qed.

Lemma on_line_event (line : string) (event : PipelineEvent) (st : state) :
  Js.startsWith "data: " line = true ->
  JSON_parse (Js.slice 6 line) = Some event ->
  on_line JSON_parse line st = handleEvent event st.
Proof. unfold on_line. intros -> ->. reflexivity. Qed.

(** One turn of the loop, in terms of the text read so far: the buffer is
    the unterminated rest of that text and the state is the result of its
    complete lines. *)
Lemma on_chunk_text (text chunk : string) (st : state) :
  on_chunk JSON_parse
      (unterminated text, on_lines JSON_parse (complete_lines text) st) chunk
    = (unterminated (String.append text chunk),
       on_lines JSON_parse (complete_lines (String.append text chunk)) st).
Proof.
  unfold on_chunk, pop_line.
  rewrite (unterminated_app text chunk), (complete_lines_app text chunk), on_lines_app.
  reflexivity.
Qed.

Lemma read_loop_cons (chunk : string) (chunks : list string) (bs : string * state) :
  read_loop JSON_parse (chunk :: chunks) bs
    = read_loop JSON_parse chunks (on_chunk JSON_parse bs chunk).
Proof. reflexivity. Qed.

Lemma read_loop_text (chunks : list string) (text : string) (st : state) :
  read_loop JSON_parse chunks
      (unterminated text, on_lines JSON_parse (complete_lines text) st)
    = (unterminated (String.append text (stream_text chunks)),
       on_lines JSON_parse
         (complete_lines (String.append text (stream_text chunks))) st).
Proof.
  revert text. induction chunks as [| chunk chunks IH]; intros text.
  - cbn [read_loop fold_left stream_text fold_right].
    rewrite append_empty_r. reflexivity.
  - rewrite read_loop_cons, on_chunk_text, IH, stream_text_cons, append_assoc.
    reflexivity.
Qed.

Lemma read_stream_text (chunks : list string) (st : state) :
  read_stream JSON_parse chunks st
    = on_lines JSON_parse (complete_lines (stream_text chunks)) st.
Proof.
  unfold read_stream.
  change (EmptyString, st)
    with (unterminated EmptyString,
          on_lines JSON_parse (complete_lines EmptyString) st).
  rewrite read_loop_text. reflexivity.
Qed.

Lemma read_stream_lines (chunks lines : list string) (tail : string) (st : state) :
  Forall (fun l => has_newline l = false) lines ->
  has_newline tail = false ->
  stream_text chunks = String.append (unlines lines) tail ->
  read_stream JSON_parse chunks st = on_lines JSON_parse lines st.
Proof.
  intros Hl Ht E.
  rewrite read_stream_text, E, (complete_lines_unlines lines tail Hl Ht).
  reflexivity.
Qed.

(** C6.  A line that does not start with [data: ], or whose payload does
    not parse, changes nothing in the state, and the loop goes on: the
    lines around it are reduced exactly as if it were not there, a
    well-formed line that follows it reaches the reducer, and the same
    holds for a stream whose text has that line among its lines, however
    the text is cut into chunks. *)
Theorem malformed_line_is_skipped (line : string) :
  malformed JSON_parse line ->
  (forall st : state, on_line JSON_parse line st = st) /\
  (forall (before after : list string) (st : state),
     on_lines JSON_parse (before ++ line :: after) st
       = on_lines JSON_parse (before ++ after) st) /\
  (forall (before : list string) (next : string) (event : PipelineEvent) (st : state),
     Js.startsWith "data: " next = true ->
     JSON_parse (Js.slice 6 next) = Some event ->
     on_lines JSON_parse (before ++ [line; next]) st
       = handleEvent event (on_lines JSON_parse before st)) /\
  (forall (chunks before after : list string) (tail : string) (st : state),
     Forall (fun l => has_newline l = false) (before ++ line :: after) ->
     has_newline tail = false ->
     stream_text chunks = String.append (unlines (before ++ line :: after)) tail ->
     read_stream JSON_parse chunks st = on_lines JSON_parse (before ++ after) st).
Proof.
  intros Hbad.
  assert (Hskip : forall (before after : list string) (st : state),
             on_lines JSON_parse (before ++ line :: after) st
               = on_lines JSON_parse (before ++ after) st).
  { intros before after st. rewrite !on_lines_app.
    unfold on_lines at 1. cbn [fold_left]. rewrite (on_line_malformed _ _ Hbad).
    reflexivity. }
  split; [| split; [| split]].
  - intros st. apply on_line_malformed, Hbad.
  - exact Hskip.
  - intros before next event st Hpre Hparse.
    rewrite (Hskip before [next] st), on_lines_app.
    unfold on_lines at 1. cbn [fold_left]. apply on_line_event; assumption.
  - intros chunks before after tail st Hl Ht E.
    rewrite (read_stream_lines chunks _ tail st Hl Ht E). apply Hskip.
Qed.

(** C10.  The state after a stream is the result of the complete
    (newline-terminated) lines of its whole text, whatever the cut into
    chunks: two streams with the same text end in the same state, text after
    the last newline is never handed to [on_line], and a stream made of the
    lines [lines] followed by an unterminated tail is reduced as [lines]. *)
Theorem read_stream_complete_lines :
  (forall (chunks : list string) (st : state),
     read_stream JSON_parse chunks st
       = on_lines JSON_parse (complete_lines (stream_text chunks)) st) /\
  (forall (chunks chunks' : list string) (st : state),
     stream_text chunks = stream_text chunks' ->
     read_stream JSON_parse chunks st = read_stream JSON_parse chunks' st) /\
  (forall (chunks : list string) (tail : string) (st : state),
     has_newline tail = false ->
     read_stream JSON_parse (chunks ++ [tail]) st = read_stream JSON_parse chunks st) /\
  (forall (chunks lines : list string) (tail : string) (st : state),
     Forall (fun l => has_newline l = false) lines ->
     has_newline tail = false ->
     stream_text chunks = String.append (unlines lines) tail ->
     read_stream JSON_parse chunks st = on_lines JSON_parse lines st).
Proof.
  split; [exact read_stream_text |]. split; [| split].
  - intros chunks chunks' st E. rewrite !read_stream_text, E. reflexivity.
  - intros chunks tail st Ht.
    rewrite !read_stream_text, stream_text_app, stream_text_cons.
    cbn [stream_text fold_right]. rewrite append_empty_r.
    rewrite (complete_lines_tail _ _ Ht). reflexivity.
  - intros chunks lines tail st. apply read_stream_lines.
Qed.

End DecoderProperties.

Lemma malformed_line_is_skipped_witness :
  let broken := "data: {oops" in
  on_line Sample.parse broken Sample.started = Sample.started /\
  on_lines Sample.parse ["data: clone running"; broken; "data: clone done"] Sample.started
    = on_lines Sample.parse ["data: clone running"; "data: clone done"] Sample.started.
Proof.
  intros broken.
  destruct (malformed_line_is_skipped Sample.parse broken (or_intror eq_refl))
    as (Hline & Hskip & _).
  split.
  - apply Hline.
  - apply (Hskip ["data: clone running"] ["data: clone done"]).
Defined.

(** A stream cut in the middle of a record and of the marker, with a
    comment line and an unterminated last record: the two complete records
    are reduced, the last one is not. *)
Example read_stream_scenario :
  read_stream Sample.parse
    [ "data: clo";
      "ne running" +:+ Sample.nl +:+ ": keep-alive" +:+ Sample.nl +:+ "da";
      "ta: clone done" +:+ Sample.nl +:+ "data: clone running" ]
    Sample.started
  = handleEvents [Sample.clone_running; Sample.clone_done] Sample.started.
Proof. reflexivity. Qed.

(** ** Scenarios *)

(** A run from the start: step 0 completed and both steps at 1; [clone]
    running fills [stepData[1]]; [clone] done completes 1 and moves the
    active step to 2. *)
Example scenario_clone :
  let s1 := handleEvent Sample.clone_running Sample.started in
  let s2 := handleEvent Sample.clone_done s1 in
  completedSteps Sample.started = {[0]} /\
  activeStep Sample.started = 1 /\ viewedStep Sample.started = 1 /\
  stepData s1 !! 1 = Some (mkStepData ["cloning u1"] running None None None None None) /\
  activeStep s1 = 1 /\
  0 ∈ completedSteps s2 /\ 1 ∈ completedSteps s2 /\
  activeStep s2 = 2 /\ viewedStep s2 = 2.
Proof.
  cbv zeta. repeat split; try reflexivity; set_solver.
Qed.

(** A pinned view: after [navigateToStep 7] a [running] event for
    [discover] moves the active step to 5 and leaves the viewed step at 7;
    out-of-range targets are clamped. *)
Example scenario_pinned_view :
  let s1 := navigateToStep 7 Sample.started in
  let s2 := handleEvent Sample.discover_running s1 in
  viewedStep s1 = 7 /\ following s1 = false /\
  activeStep s2 = 5 /\ viewedStep s2 = 7 /\
  viewedStep (navigateToStep (-3) s2) = 0 /\
  viewedStep (navigateToStep 40 s2) = 11.
Proof. cbv zeta. repeat split; reflexivity. Qed.

(* ===================================================================== *)
(** * Further properties of the hook *)
(* ===================================================================== *)

(** ** Events the reducer has no place for *)

Lemma read_undefined (step : string) :
  read_step_index step = undefined ->
  STEP_INDEX_MAP !! step = None /\ is_inherited_name step = false.
Proof.
  unfold read_step_index.
  destruct (STEP_INDEX_MAP !! step); [discriminate |].
  destruct (is_inherited_name step); [discriminate | auto].
Qed.

(** An event whose step is not [pipeline] and for which the read
    [STEP_INDEX_MAP[event.step]] is [undefined] (the step is no key of the
    table and no name inherited from [Object.prototype]) leaves the whole
    state as it is. *)
Theorem unmapped_event_is_ignored (event : PipelineEvent) (st : state) :
  ev_step event <> "pipeline" ->
  read_step_index (ev_step event) = undefined ->
  handleEvent event st = st.
Proof.
  intros Hmeta Hread. destruct (read_undefined _ Hread) as [Hnone _].
  unfold handleEvent.
  apply String.eqb_neq in Hmeta. rewrite Hmeta, Hnone. reflexivity.
Qed.

Lemma unmapped_event_is_ignored_witness :
  handleEvent Fixture.lint_running Fixture.mid_run = Fixture.mid_run.
Proof.
  apply unmapped_event_is_ignored; [discriminate | reflexivity].
Defined.

(** ** Replaying an event *)

Lemma state_eq (s t : state) :
  isRunning s = isRunning t -> activeStep s = activeStep t ->
  viewedStep s = viewedStep t -> userNavigatedRef s = userNavigatedRef t ->
  completedSteps s = completedSteps t -> stepData s = stepData t ->
  run_error s = run_error t -> s = t.
Proof. destruct s, t; cbn; intros; subst; reflexivity. Qed.

(** Reducing the same event twice in a row gives the state reached after
    the first time: a replayed [done] neither doubles its index in the
    completed set nor moves a step. *)
Theorem handleEvent_idempotent (event : PipelineEvent) (st : state) :
  handleEvent event (handleEvent event st) = handleEvent event st.
Proof.
  destruct (String.eqb (ev_step event) "pipeline") eqn:Hmeta.
  - unfold handleEvent. rewrite Hmeta.
    destruct (String.eqb (ev_status event) "error"); reflexivity.
  - destruct (STEP_INDEX_MAP !! ev_step event) as [n |] eqn:Hn.
    + rewrite !(handleEvent_mapped event _ n Hn). cbn zeta.
      destruct (String.eqb (ev_status event) "running");
        [| destruct (String.eqb (ev_status event) "done")];
        destruct (userNavigatedRef st) eqn:Href; cbn; rewrite ?Href; cbn;
        apply state_eq; cbn; try reflexivity;
        try apply insert_insert_eq; try lia;
        rewrite <- (assoc_L (∪)), (idemp_L (∪) {[n]}); reflexivity.
    + unfold handleEvent. rewrite Hmeta, Hn. reflexivity.
Qed.

(** ** A failed step *)

(** An event for a mapped step whose status is neither [running] nor [done]
    only rewrites the entry of its step: the steps shown, the completed set
    and the run error stay as they are.  The entry is marked [error] for
    the status [error] and [running] for any other status. *)
Theorem step_failure_is_local (event : PipelineEvent) (st : state) (n : Z) :
  STEP_INDEX_MAP !! ev_step event = Some n ->
  ev_status event <> "running" ->
  ev_status event <> "done" ->
  handleEvent event st = setStepData (fun prev => <[n := event_data event]> prev) st /\
  run_error (handleEvent event st) = run_error st /\
  sd_status (event_data event)
    = (if String.eqb (ev_status event) "error" then error else running).
Proof.
  intros Hn Hrun Hdone. rewrite (handleEvent_mapped event st n Hn).
  apply String.eqb_neq in Hrun, Hdone. rewrite Hrun, Hdone. cbn.
  rewrite Hdone. repeat split.
Qed.

Lemma step_failure_is_local_witness :
  let st := handleEvent Fixture.ingest_error Fixture.mid_run in
  run_error st = None /\
  activeStep st = activeStep Fixture.mid_run /\
  sd_status <$> stepData st !! 4 = Some error.
Proof.
  intros st.
  destruct (step_failure_is_local Fixture.ingest_error Fixture.mid_run 4)
    as (Hst & Herr & Hstatus); [reflexivity | discriminate | discriminate |].
  subst st. rewrite Hst. cbn. rewrite lookup_insert_eq. cbn.
  repeat split.
Defined.

(** ** The two step pointers stay on the stepper *)

Lemma handleEvent_steps_in_range (event : PipelineEvent) (st : state) :
  steps_in_range st -> steps_in_range (handleEvent event st).
Proof.
  unfold steps_in_range. intros [Ha Hv].
  reducer_cases event st; try (split; assumption).
  all: match goal with H : STEP_INDEX_MAP !! _ = Some _ |- _ =>
         apply STEP_INDEX_MAP_range in H end.
  all: unfold MAX_STEP in *; lia.
Qed.

Lemma perform_steps_in_range (a : action) (st : state) :
  steps_in_range st -> steps_in_range (perform a st).
Proof.
  destruct a as [event | index | | name message |]; cbn.
  - apply handleEvent_steps_in_range.
  - intros [Ha Hv]. split; [exact Ha |].
    unfold navigateToStep, setViewedStep, MAX_STEP. cbn [viewedStep]. lia.
  - intros H. exact H.
  - unfold catch_error. destruct (negb (String.eqb name "AbortError")); intros H; exact H.
  - intros H. exact H.
Qed.

Lemma run_steps_in_range_lemma (st0 : state) (acts : list action) :
  steps_in_range (perform_all acts (start_reset st0)).
Proof.
  assert (H0 : steps_in_range (start_reset st0))
    by (unfold steps_in_range, MAX_STEP; cbn; lia).
  revert H0. generalize (start_reset st0) as st.
  induction acts as [| a acts IH]; intros st H; cbn.
  - exact H.
  - apply IH, perform_steps_in_range, H.
Qed.

(** At every point of a run whose events read the own properties of the
    table, whatever such events, navigations, cancellations and faults
    have been processed, the active step lies in [1, MAX_STEP] and the
    viewed step in [0, MAX_STEP]. *)
Theorem run_steps_in_range (st0 : state) (acts : list action) :
  trace_reads_own acts = true ->
  let st := perform_all acts (start_reset st0) in
  1 <= activeStep st <= MAX_STEP /\ 0 <= viewedStep st <= MAX_STEP.
Proof. intros _. cbv zeta. exact (run_steps_in_range_lemma st0 acts). Qed.

Lemma run_steps_in_range_witness :
  let st := perform_all [Receive Sample.discover_running; Navigate 40;
                         Receive Sample.clone_running; Navigate (-3)]
              (start_reset initial_state) in
  1 <= activeStep st <= MAX_STEP /\ 0 <= viewedStep st <= MAX_STEP.
Proof.
  apply (run_steps_in_range initial_state
           [Receive Sample.discover_running; Navigate 40;
            Receive Sample.clone_running; Navigate (-3)]).
  reflexivity.
Defined.

(** ** Completed steps have an entry *)

Lemma handleEvent_completed_have_data (event : PipelineEvent) (st : state) :
  completed_have_data st -> completed_have_data (handleEvent event st).
Proof.
  unfold completed_have_data. intros H n.
  rewrite handleEvent_step_data.
  reducer_cases event st; intros Hn Hn0; try (apply H; assumption).
  all: try (destruct (decide (z = n)) as [-> | Hne];
            [rewrite lookup_insert_eq; eauto
            | rewrite lookup_insert_ne by exact Hne; apply H; assumption]).
  all: destruct (decide (z = n)) as [-> | Hne];
       [rewrite lookup_insert_eq; eauto |].
  all: rewrite lookup_insert_ne by exact Hne; apply H; [| exact Hn0].
  all: apply elem_of_union in Hn as [Hn | Hn]; [exact Hn |].
  all: apply elem_of_singleton in Hn; congruence.
Qed.

Lemma perform_completed_have_data (a : action) (st : state) :
  completed_have_data st -> completed_have_data (perform a st).
Proof.
  destruct a as [event | index | | name message |]; cbn.
  - apply handleEvent_completed_have_data.
  - intros H. exact H.
  - intros H. exact H.
  - unfold catch_error. destruct (negb (String.eqb name "AbortError")); intros H; exact H.
  - intros H. exact H.
Qed.

(** At every point of a run every completed step other than step 0 has an
    entry in [stepData]: a step is only completed by a [done] event, which
    also stores its data, and no entry is removed during a run. *)
Theorem completed_steps_have_data (st0 : state) (acts : list action) (n : Z) :
  let st := perform_all acts (start_reset st0) in
  n ∈ completedSteps st -> n <> 0 -> is_Some (stepData st !! n).
Proof.
  cbv zeta. revert n.
  fold (completed_have_data (perform_all acts (start_reset st0))).
  assert (H0 : completed_have_data (start_reset st0)).
  { intros n Hn Hn0. cbn in Hn. apply elem_of_union in Hn as [Hn | Hn].
    - apply not_elem_of_empty in Hn. contradiction.
    - apply elem_of_singleton in Hn. contradiction. }
  revert H0. generalize (start_reset st0) as st.
  induction acts as [| a acts IH]; intros st H; cbn.
  - exact H.
  - apply IH, perform_completed_have_data, H.
Qed.

Lemma completed_steps_have_data_witness :
  is_Some (stepData Fixture.mid_run !! 1).
Proof.
  apply (completed_steps_have_data initial_state
           [Receive Sample.clone_running; Receive Sample.clone_done] 1).
  - cbn. apply elem_of_union_r, elem_of_singleton. reflexivity.
  - discriminate.
Defined.

(** ** What a sequence of events leaves behind *)

Lemma events_for_snoc (n : Z) (events : list PipelineEvent) (event : PipelineEvent) :
  events_for n (events ++ [event])
    = events_for n events
      ++ (if bool_decide (STEP_INDEX_MAP !! ev_step event = Some n) then [event] else []).
Proof. unfold events_for. rewrite List.filter_app. reflexivity. Qed.

(** After a sequence of events the entry of step [n] is the record built
    from the last event of the sequence for that step; it is the entry
    from before when the sequence has no event for the step.  Earlier
    events for the step leave no trace in it. *)
Theorem step_data_last_event_wins (events : list PipelineEvent) (st : state) (n : Z) :
  stepData (handleEvents events st) !! n
    = match last (events_for n events) with
      | Some event => Some (event_data event)
      | None => stepData st !! n
      end.
Proof.
  induction events as [| event events IH] using rev_ind.
  - reflexivity.
  - rewrite handleEvents_snoc, events_for_snoc, handleEvent_step_data.
    destruct (String.eqb_spec (ev_step event) "pipeline") as [Hmeta | _].
    + rewrite Hmeta, pipeline_is_unmapped.
      rewrite bool_decide_eq_false_2 by discriminate.
      rewrite app_nil_r. exact IH.
    + destruct (STEP_INDEX_MAP !! ev_step event) as [k |] eqn:Hk.
      * destruct (decide (k = n)) as [-> | Hne].
        -- rewrite bool_decide_eq_true_2 by reflexivity.
           rewrite last_snoc, lookup_insert_eq. reflexivity.
        -- rewrite bool_decide_eq_false_2 by congruence.
           rewrite app_nil_r, lookup_insert_ne by exact Hne. exact IH.
      * rewrite bool_decide_eq_false_2 by discriminate.
        rewrite app_nil_r. exact IH.
Qed.

Lemma handleEvent_completed (event : PipelineEvent) (st : state) :
  completedSteps (handleEvent event st) =
    if String.eqb (ev_step event) "pipeline" then completedSteps st
    else match STEP_INDEX_MAP !! ev_step event with
         | Some n =>
             if String.eqb (ev_status event) "running" then completedSteps st
             else if String.eqb (ev_status event) "done"
                  then completedSteps st ∪ {[n]} else completedSteps st
         | None => completedSteps st
         end.
Proof. reducer_cases event st; reflexivity. Qed.

Lemma handleEvent_completed_iff (event : PipelineEvent) (st : state) (n : Z) :
  n ∈ completedSteps (handleEvent event st) <->
  n ∈ completedSteps st \/
  (ev_status event = "done" /\ STEP_INDEX_MAP !! ev_step event = Some n).
Proof.
  rewrite handleEvent_completed.
  destruct (String.eqb_spec (ev_step event) "pipeline") as [Hmeta | _].
  { rewrite Hmeta, pipeline_is_unmapped. split; [auto | intros [H | [_ H]]]; [exact H |].
    discriminate H. }
  destruct (STEP_INDEX_MAP !! ev_step event) as [k |].
  - destruct (String.eqb_spec (ev_status event) "running") as [Hrun | _].
    { rewrite Hrun. split; [auto | intros [H | [H _]]]; [exact H | discriminate H]. }
    destruct (String.eqb_spec (ev_status event) "done") as [Hdone | Hnot].
    + rewrite elem_of_union, elem_of_singleton. split.
      * intros [H | ->]; auto.
      * intros [H | [_ H]]; [auto | right; congruence].
    + split; [auto | intros [H | [H _]]]; [exact H | contradiction].
  - split; [auto | intros [H | [_ H]]]; [exact H | discriminate H].
Qed.

(** After a sequence of events the completed set holds what it held
    before and the indices of the mapped steps that a [done] event of the
    sequence names, nothing else. *)
Theorem completed_after_events (events : list PipelineEvent) (st : state) (n : Z) :
  n ∈ completedSteps (handleEvents events st) <->
  n ∈ completedSteps st \/
  exists event, In event events /\ ev_status event = "done" /\
                STEP_INDEX_MAP !! ev_step event = Some n.
Proof.
  induction events as [| event events IH] using rev_ind.
  - cbn. split; [auto | intros [H | (e & [] & _)]; exact H].
  - rewrite handleEvents_snoc, handleEvent_completed_iff, IH. split.
    + intros [[H | (e & Hin & He)] | He].
      * left. exact H.
      * right. exists e. rewrite in_app_iff. auto.
      * right. exists event. rewrite in_app_iff. cbn. auto.
    + intros [H | (e & Hin & He)]; [auto |].
      apply in_app_iff in Hin as [Hin | [-> | []]].
      * left. right. exists e. auto.
      * right. exact He.
Qed.

Lemma handleEvent_run_error (event : PipelineEvent) (st : state) :
  run_error (handleEvent event st)
    = if is_run_failure event then Some (Js.join "; " (ev_items event))
      else run_error st.
Proof.
  unfold is_run_failure. reducer_cases event st; try reflexivity.
  all: match goal with
       | H : ev_step _ = _ |- _ => rewrite H
       | H : ev_step _ <> _ |- _ => apply String.eqb_neq in H; rewrite H
       end; cbn.
  all: try match goal with
       | H : ev_status _ = _ |- _ => rewrite H
       | H : ev_status _ <> "error" |- _ => apply String.eqb_neq in H; rewrite H
       end; reflexivity.
Qed.

(** The run error after a sequence of events is the joined items of the
    last [pipeline] event with status [error] in the sequence, and the
    error from before when there is none: the failure of a step never sets
    it and no event clears it. *)
Theorem run_error_after_events (events : list PipelineEvent) (st : state) :
  run_error (handleEvents events st)
    = match last (List.filter is_run_failure events) with
      | Some event => Some (Js.join "; " (ev_items event))
      | None => run_error st
      end.
Proof.
  induction events as [| event events IH] using rev_ind.
  - reflexivity.
  - rewrite handleEvents_snoc, handleEvent_run_error, List.filter_app. cbn.
    destruct (is_run_failure event).
    + rewrite last_snoc. reflexivity.
    + rewrite app_nil_r. exact IH.
Qed.

(** ** Navigation and progress *)

Lemma handleEvent_same_progress (event : PipelineEvent) (s t : state) :
  same_progress s t -> same_progress (handleEvent event s) (handleEvent event t).
Proof.
  unfold same_progress. intros (Hr & Ha & Hc & Hd & He).
  unfold handleEvent.
  destruct (String.eqb (ev_step event) "pipeline");
    [destruct (String.eqb (ev_status event) "error"); cbn; auto |].
  destruct (STEP_INDEX_MAP !! ev_step event) as [n |]; [| auto].
  destruct (String.eqb (ev_status event) "running");
    [| destruct (String.eqb (ev_status event) "done")];
    cbn; destruct (userNavigatedRef s), (userNavigatedRef t); cbn;
    rewrite ?Ha, ?Hc, ?Hd; auto.
Qed.

Lemma perform_same_progress (a : action) (s t : state) :
  same_progress s t -> same_progress (perform a s) (perform a t).
Proof.
  destruct a as [event | index | | name message |]; cbn.
  - apply handleEvent_same_progress.
  - intros H. exact H.
  - unfold same_progress. cbn. intuition.
  - unfold catch_error, same_progress.
    destruct (negb (String.eqb name "AbortError")); cbn; intuition.
  - unfold same_progress. cbn. intuition.
Qed.

Lemma perform_all_cons (a : action) (acts : list action) (st : state) :
  perform_all (a :: acts) st = perform_all acts (perform a st).
Proof. reflexivity. Qed.

Lemma without_navigation_cons (a : action) (acts : list action) :
  without_navigation (a :: acts)
    = if is_navigate a then without_navigation acts else a :: without_navigation acts.
Proof. unfold without_navigation. cbn. destruct (is_navigate a); reflexivity. Qed.

(** Navigation has no effect on the progress of a run: after any trace the
    active step, the completed set, the step data, the run error and
    [isRunning] are what they are after the same trace with its navigations
    taken out. *)
Theorem navigation_leaves_progress (acts : list action) (st : state) :
  same_progress (perform_all acts st) (perform_all (without_navigation acts) st).
Proof.
  assert (H : same_progress st st) by (unfold same_progress; auto).
  revert H. generalize st at 2 4 as t. revert st.
  induction acts as [| a acts IH]; intros s t H.
  - exact H.
  - rewrite without_navigation_cons, perform_all_cons.
    destruct (is_navigate a) eqn:Ha.
    + destruct a; try discriminate Ha. apply IH.
      destruct H as (Hr & Hact & Hc & Hd & He). repeat split; assumption.
    + rewrite perform_all_cons. apply IH, perform_same_progress, H.
Qed.

(** ** The whole of a run *)

Lemma finish_not_running (st : state) : isRunning (finish st) = false.
Proof. reflexivity. Qed.

(** Whatever the server answers and whatever the user does meanwhile,
    [startPipeline] ends with [isRunning] off, has sent the submission
    request with the URLs it was given, and has sent the stream request,
    after it and for the run id of the answer, only when the submission was
    accepted. *)
Theorem startPipeline_always_finishes
    (JSON_parse : string -> option PipelineEvent) (urls : list Js.text)
    (sr : start_reply) (tr : stream_reply) (w : world) :
  isRunning (ui (startPipeline JSON_parse urls sr tr w)) = false /\
  requests (startPipeline JSON_parse urls sr tr w)
    = requests w ++ POST_start urls
        :: match sr with StartOk run_id => [GET_stream run_id] | _ => [] end.
Proof.
  unfold startPipeline, startPipeline_sync.
  destruct sr as [name message | statusText | run_id]; cbn [ui requests].
  - split; [apply finish_not_running | reflexivity].
  - split; [apply finish_not_running | reflexivity].
  - destruct tr as [name message | | turns [| name message]]; cbn [ui requests];
      (split; [apply finish_not_running | rewrite <- app_assoc; reflexivity]).
Qed.

Lemma catch_abort (message : string) (st : state) :
  catch_error "AbortError" message st = st.
Proof. reflexivity. Qed.

(** An abort is no failure: a run whose read loop is left by an
    [AbortError] ends in the state of the run whose stream ends there, and
    an abort of the stream request leaves the run error as the start of the
    run set it, empty. *)
Theorem startPipeline_abort_is_silent
    (JSON_parse : string -> option PipelineEvent) (urls : list Js.text)
    (run_id message : string) (turns : list turn) (w : world) :
  startPipeline JSON_parse urls (StartOk run_id)
      (StreamOk turns (ReadThrows "AbortError" message)) w
    = startPipeline JSON_parse urls (StartOk run_id) (StreamOk turns EndOfData) w /\
  run_error (ui (startPipeline JSON_parse urls (StartOk run_id)
                   (StreamThrows "AbortError" message) w)) = None.
Proof.
  unfold startPipeline. cbn zeta. rewrite !catch_abort. split; reflexivity.
Qed.




(** ** A well-framed stream *)

Lemma stream_loop_chunks
    (JSON_parse : string -> option PipelineEvent) (chunks : list string)
    (bs : string * state) :
  stream_loop JSON_parse (map Chunk chunks) bs = read_loop JSON_parse chunks bs.
Proof.
  revert bs. induction chunks as [| chunk chunks IH]; intros bs.
  - reflexivity.
  - cbn. apply IH.
Qed.

Lemma on_line_frame
    (JSON_parse : string -> option PipelineEvent) (payload : string)
    (event : PipelineEvent) (st : state) :
  JSON_parse payload = Some event ->
  on_line JSON_parse (frame payload) st = handleEvent event st.
Proof. intros H. apply on_line_event; [reflexivity | exact H]. Qed.

Lemma on_lines_frames
    (JSON_parse : string -> option PipelineEvent) (payloads : list string)
    (events : list PipelineEvent) (st : state) :
  Forall2 (fun payload event => JSON_parse payload = Some event) payloads events ->
  on_lines JSON_parse (map frame payloads) st = handleEvents events st.
Proof.
  intros H. revert st. induction H as [| payload event payloads events Hp _ IH]; intros st.
  - reflexivity.
  - cbn. rewrite (on_line_frame _ _ _ _ Hp). apply IH.
Qed.

Lemma frames_have_no_newline (payloads : list string) :
  Forall (fun payload => has_newline payload = false) payloads ->
  Forall (fun line => has_newline line = false) (map frame payloads).
Proof.
  induction 1 as [| payload payloads Hp _ IH]; cbn; constructor.
  - exact Hp.
  - exact IH.
Qed.

(** A stream whose text is a sequence of [data: ] lines, each carrying a
    payload that parses to an event, followed by an unterminated tail,
    delivers exactly these events to the reducer, in order, however the
    text is cut into chunks; the run then ends with the state these events
    lead to from the start of the run, [isRunning] off. *)
Theorem framed_stream_delivers_events
    (JSON_parse : string -> option PipelineEvent) (urls : list Js.text)
    (run_id : string) (chunks payloads : list string) (events : list PipelineEvent)
    (tail : string) (w : world) :
  Forall2 (fun payload event => JSON_parse payload = Some event) payloads events ->
  Forall (fun payload => has_newline payload = false) payloads ->
  has_newline tail = false ->
  stream_text chunks = String.append (unlines (map frame payloads)) tail ->
  read_stream JSON_parse chunks (start_reset (ui w))
    = handleEvents events (start_reset (ui w)) /\
  ui (startPipeline JSON_parse urls (StartOk run_id)
        (StreamOk (map Chunk chunks) EndOfData) w)
    = finish (handleEvents events (start_reset (ui w))).
Proof.
  intros Hparse Hnl Htail Htext.
  assert (E : read_stream JSON_parse chunks (start_reset (ui w))
              = handleEvents events (start_reset (ui w))).
  { rewrite (read_stream_lines JSON_parse chunks (map frame payloads) tail _
               (frames_have_no_newline payloads Hnl) Htail Htext).
    apply on_lines_frames, Hparse. }
  split; [exact E |].
  unfold startPipeline. cbn [ui startPipeline_sync]. rewrite stream_loop_chunks.
  fold (read_stream JSON_parse chunks (start_reset (ui w))). rewrite E. reflexivity.
Qed.

Lemma framed_stream_delivers_events_witness :
  ui (startPipeline Sample.parse [Fixture.repo] (StartOk "r1")
        (StreamOk (map Chunk [ "data: clone run"; "ning" +:+ Sample.nl +:+ "data: clone done";
                               Sample.nl +:+ "data: clo" ])
                  EndOfData)
        Fixture.idle)
    = finish Fixture.mid_run.
Proof.
  apply (framed_stream_delivers_events Sample.parse [Fixture.repo] "r1"
           [ "data: clone run"; "ning" +:+ Sample.nl +:+ "data: clone done";
             Sample.nl +:+ "data: clo" ]
           ["clone running"; "clone done"]
           [Sample.clone_running; Sample.clone_done]
           "data: clo" Fixture.idle).
  - repeat constructor.
  - repeat constructor.
  - reflexivity.
  - reflexivity.
Defined.

(** After any chunks the buffer of the read loop is the text received
    since the last newline, all of it and nothing else; it holds no
    newline. *)
Theorem buffer_is_the_unterminated_text
    (JSON_parse : string -> option PipelineEvent) (chunks : list string) (st : state) :
  fst (read_loop JSON_parse chunks (EmptyString, st)) = unterminated (stream_text chunks) /\
  has_newline (fst (read_loop JSON_parse chunks (EmptyString, st))) = false.
Proof.
  assert (E : fst (read_loop JSON_parse chunks (EmptyString, st))
              = unterminated (stream_text chunks)).
  { change (EmptyString, st)
      with (unterminated EmptyString,
            on_lines JSON_parse (complete_lines EmptyString) st).
    rewrite read_loop_text. reflexivity. }
  split; [exact E |]. rewrite E. apply unterminated_has_no_newline.
Qed.

(* ===================================================================== *)
(** * Properties of the components *)
(* ===================================================================== *)

(** ** The URL form *)

Lemma visible_iff_not_blank (u : Js.text) :
  Js.truthy (Js.trim u) = true <-> ~ blank u.
Proof.
  split.
  - intros H Hb. rewrite (trim_blank u Hb) in H. discriminate H.
  - apply trim_visible.
Qed.

(** The list that [handleStart] submits is never empty and holds exactly
    the entries of the form that are not blank, each as it was typed
    (surrounding white space included). *)
Theorem handleStart_submits_visible_entries
    (urls valid : list Js.text) (w : world) :
  requests (handleStart urls w) = requests w ++ [POST_start valid] ->
  valid <> [] /\
  (forall u : Js.text, In u valid <-> In u urls /\ ~ blank u) /\
  ui (handleStart urls w) = start_reset (ui w).
Proof.
  unfold handleStart.
  destruct (List.filter (fun u => Js.truthy (Js.trim u)) urls) as [| v rest] eqn:E.
  - change (0 <? Z.of_nat (List.length (@nil Js.text))) with false.
    intros H. exfalso.
    apply (f_equal (@List.length request)) in H.
    rewrite length_app in H. cbn [List.length] in H. lia.
  - cbn [List.length]. replace (0 <? Z.of_nat (S (List.length rest))) with true
      by (symmetry; apply Z.ltb_lt; lia).
    cbn. intros H. apply app_inv_head in H. injection H as <-.
    split; [discriminate |]. split; [| reflexivity].
    intros u. rewrite <- E, filter_In, visible_iff_not_blank. reflexivity.
Qed.

Lemma handleStart_submits_visible_entries_witness :
  [Fixture.padded_repo; Fixture.repo] <> [] /\
  (In Fixture.padded_repo [Fixture.padded_repo; Fixture.repo]
   <-> In Fixture.padded_repo
         [Js.of_string "   "; Fixture.padded_repo; []; Fixture.repo]
       /\ ~ blank Fixture.padded_repo).
Proof.
  destruct (handleStart_submits_visible_entries
              [Js.of_string "   "; Fixture.padded_repo; []; Fixture.repo]
              [Fixture.padded_repo; Fixture.repo] Fixture.idle eq_refl)
    as (Hne & Hin & _).
  split; [exact Hne | apply Hin].
Defined.




Lemma filter_other_index_past (idx i : nat) (urls : list Js.text) :
  (i < idx)%nat -> filter_other_index idx i urls = urls.
Proof.
  revert idx. induction urls as [| u urls IH]; intros idx Hlt; cbn [filter_other_index].
  - reflexivity.
  - destruct (Nat.eqb_spec idx i) as [-> | _]; [lia |].
    rewrite IH by lia. reflexivity.
Qed.

Lemma filter_other_index_spec (idx i : nat) (urls : list Js.text) :
  (idx <= i)%nat ->
  filter_other_index idx i urls = take (i - idx) urls ++ drop (S (i - idx)) urls.
Proof.
  revert idx. induction urls as [| u urls IH]; intros idx Hle; cbn [filter_other_index].
  - rewrite take_nil, drop_nil. reflexivity.
  - destruct (Nat.eqb_spec idx i) as [-> | Hne].
    + replace (i - i)%nat with 0%nat by lia. cbn.
      apply filter_other_index_past. lia.
    + replace (i - idx)%nat with (S (i - S idx)) by lia. cbn.
      rewrite (IH (S idx)) by lia. reflexivity.
Qed.

Lemma removeUrl_take_drop (i : nat) (urls : list Js.text) :
  removeUrl i urls = take i urls ++ drop (S i) urls.
Proof.
  unfold removeUrl. rewrite (filter_other_index_spec 0 i urls) by lia.
  rewrite Nat.sub_0_r. reflexivity.
Qed.

(** [removeUrl i] takes out the entry at position [i] and nothing else; a
    position past the end leaves the list as it is. *)
Theorem removeUrl_spec (i : nat) (urls : list Js.text) :
  removeUrl i urls = take i urls ++ drop (S i) urls /\
  (forall j : nat, (j < i)%nat -> removeUrl i urls !! j = urls !! j) /\
  (forall j : nat, (i <= j)%nat -> removeUrl i urls !! j = urls !! S j) /\
  ((List.length urls <= i)%nat -> removeUrl i urls = urls).
Proof.
  pose proof (removeUrl_take_drop i urls) as E.
  split; [exact E |]. rewrite E. split; [| split].
  - intros j Hj. destruct (decide (j < List.length urls)%nat) as [Hin | Hout].
    + rewrite lookup_app_l by (rewrite length_take; lia).
      apply lookup_take_lt. exact Hj.
    + rewrite (lookup_ge_None_2 urls j) by lia.
      apply lookup_ge_None_2. rewrite length_app, length_take, length_drop. lia.
  - intros j Hj. destruct (decide (i < List.length urls)%nat) as [Hin | Hout].
    + rewrite lookup_app_r by (rewrite length_take; lia).
      rewrite length_take, lookup_drop. f_equal. lia.
    + rewrite (lookup_ge_None_2 urls (S j)) by lia.
      apply lookup_ge_None_2. rewrite length_app, length_take, length_drop. lia.
  - intros Hlen. rewrite take_ge by exact Hlen. rewrite drop_ge by lia.
    apply app_nil_r.
Qed.

(** An empty entry added with [addUrl] changes nothing in what a click on
    the start button does, and removing it again gives the list back. *)
Theorem added_entry_is_harmless (urls : list Js.text) (w : world) :
  handleStart (addUrl urls) w = handleStart urls w /\
  removeUrl (List.length urls) (addUrl urls) = urls.
Proof.
  split.
  - unfold handleStart, addUrl. rewrite List.filter_app. cbn [List.filter].
    change (Js.truthy (Js.trim [])) with false. cbn iota. rewrite app_nil_r.
    reflexivity.
  - rewrite removeUrl_take_drop. unfold addUrl.
    rewrite take_app_length, drop_ge by (rewrite length_app; cbn; lia).
    apply app_nil_r.
Qed.

(** ** The step views *)

Lemma handleEvent_no_pending (event : PipelineEvent) (st : state) :
  no_pending_data st -> no_pending_data (handleEvent event st).
Proof.
  unfold no_pending_data. intros H n d. rewrite handleEvent_step_data.
  destruct (String.eqb (ev_step event) "pipeline"); [apply H |].
  destruct (STEP_INDEX_MAP !! ev_step event) as [k |]; [| apply H].
  destruct (decide (k = n)) as [-> | Hne].
  - rewrite lookup_insert_eq. intros [= <-]. cbn.
    destruct (String.eqb (ev_status event) "done"); [discriminate |].
    destruct (String.eqb (ev_status event) "error"); discriminate.
  - rewrite lookup_insert_ne by exact Hne. apply H.
Qed.

Lemma perform_no_pending (a : action) (st : state) :
  no_pending_data st -> no_pending_data (perform a st).
Proof.
  destruct a as [event | index | | name message |]; cbn.
  - apply handleEvent_no_pending.
  - intros H. exact H.
  - intros H. exact H.
  - unfold catch_error. destruct (negb (String.eqb name "AbortError")); intros H; exact H.
  - intros H. exact H.
Qed.

(** At every point of a run the waiting notice of [LiveProcessingStep] is
    shown for a step exactly when no event for that step has been stored:
    the reducer never stores the status [pending], which is only the
    default of the view for a missing entry. *)
Theorem waiting_notice_iff_no_data (st0 : state) (acts : list action) (n : Z) :
  let st := perform_all acts (start_reset st0) in
  shows_waiting (stepData st !! n) = true <-> stepData st !! n = None.
Proof.
  cbv zeta.
  assert (H : no_pending_data (perform_all acts (start_reset st0))).
  { assert (H0 : no_pending_data (start_reset st0)).
    { intros k d Hk. cbn in Hk. rewrite lookup_empty in Hk. discriminate Hk. }
    revert H0. generalize (start_reset st0) as st.
    induction acts as [| a acts IH]; intros st H; cbn.
    - exact H.
    - apply IH, perform_no_pending, H. }
  destruct (stepData (perform_all acts (start_reset st0)) !! n) as [d |] eqn:E.
  - split; [| discriminate]. unfold shows_waiting. cbn. intros Hw.
    apply andb_true_iff in Hw as [_ Hp]. apply bool_decide_eq_true in Hp.
    destruct (H n d E Hp).
  - split; reflexivity.
Qed.

(** Clicking a test card twice restores the set of expanded cards; one
    click changes the card clicked, from collapsed to expanded or back, and
    no other card. *)
Theorem toggleTest_twice (name : string) (expanded : gset string) :
  toggleTest name (toggleTest name expanded) = expanded /\
  (name ∈ toggleTest name expanded <-> name ∉ expanded) /\
  (forall other : string,
     other <> name -> (other ∈ toggleTest name expanded <-> other ∈ expanded)).
Proof.
  assert (Hout : name ∉ expanded ∖ {[name]}).
  { rewrite elem_of_difference, elem_of_singleton. tauto. }
  assert (Hin' : name ∈ expanded ∪ {[name]}).
  { apply elem_of_union_r, elem_of_singleton. reflexivity. }
  unfold toggleTest.
  destruct (bool_decide (name ∈ expanded)) eqn:Hin.
  - apply bool_decide_eq_true in Hin.
    rewrite (bool_decide_eq_false_2 _ Hout). split; [| split].
    + apply set_eq. intros x.
      rewrite elem_of_union, elem_of_difference, elem_of_singleton.
      destruct (decide (x = name)) as [-> | Hne]; tauto.
    + tauto.
    + intros other Hne. rewrite elem_of_difference, elem_of_singleton. tauto.
  - apply bool_decide_eq_false in Hin.
    rewrite (bool_decide_eq_true_2 _ Hin'). split; [| split].
    + apply set_eq. intros x.
      rewrite elem_of_difference, elem_of_union, elem_of_singleton.
      destruct (decide (x = name)) as [-> | Hne]; tauto.
    + tauto.
    + intros other Hne. rewrite elem_of_union, elem_of_singleton. tauto.
Qed.

(** ** The stepper *)

(** Every pill of the stepper carries exactly one of its four conditional
    classes, and it shows the check mark exactly when that class is the
    completed one. *)
Theorem pill_has_one_class (st : state) (i : Z) :
  classes_on (stepper_pill st i) = 1%nat /\
  check_mark (stepper_pill st i) = cls_completed (stepper_pill st i).
Proof.
  unfold classes_on, stepper_pill. cbn.
  destruct (bool_decide (i ∈ completedSteps st)), (viewedStep st =? i),
    (activeStep st =? i); split; reflexivity.
Qed.

(** At every point of a run the pill of step 0 is a completed one, the
    pill of the viewed step is completed or carries the viewed class, and
    a pill past the last step is never the viewed or the active one. *)
Theorem stepper_in_a_run (st0 : state) (acts : list action) :
  let st := perform_all acts (start_reset st0) in
  cls_completed (stepper_pill st 0) = true /\
  (cls_completed (stepper_pill st (viewedStep st)) = true \/
   cls_viewed (stepper_pill st (viewedStep st)) = true) /\
  (forall i : Z, MAX_STEP < i ->
     cls_viewed (stepper_pill st i) = false /\ cls_active (stepper_pill st i) = false).
Proof.
  cbv zeta.
  destruct (perform_all_invariant acts (start_reset st0) (start_reset_in_range st0))
    as [_ Hs].
  pose proof (run_steps_in_range_lemma st0 acts) as [Ha Hv].
  split; [| split].
  - cbn. apply bool_decide_eq_true. apply Hs. cbn.
    apply elem_of_union_r, elem_of_singleton. reflexivity.
  - cbn. rewrite Z.eqb_refl.
    destruct (bool_decide (viewedStep (perform_all acts (start_reset st0))
                             ∈ completedSteps (perform_all acts (start_reset st0))));
      auto.
  - intros i Hi. cbn.
    replace (viewedStep (perform_all acts (start_reset st0)) =? i) with false
      by (symmetry; apply Z.eqb_neq; lia).
    replace (activeStep (perform_all acts (start_reset st0)) =? i) with false
      by (symmetry; apply Z.eqb_neq; lia).
    split; reflexivity.
Qed.

(* ===================================================================== *)
(** * Reads of inherited names *)
(* ===================================================================== *)

(** No key of the table is an inherited name: the events of a mapped step
    read an own property. *)
Lemma mapped_steps_are_own (step : string) (n : Z) :
  STEP_INDEX_MAP !! step = Some n ->
  is_inherited_name step = false /\ read_step_index step = own n.
Proof.
  intros H. unfold read_step_index. rewrite H. split; [| reflexivity].
  apply elem_of_list_to_map_2 in H.
  repeat (apply elem_of_cons in H as [H | H]; [inversion H; reflexivity |]).
  inversion H.
Qed.

Lemma read_own_property (step : string) :
  is_inherited_name step = false ->
  read_step_index step
    = match STEP_INDEX_MAP !! step with Some n => own n | None => undefined end.
Proof. intros H. unfold read_step_index. rewrite H. reflexivity. Qed.

(** On an event that reads an own property of the table (or nothing),
    [handleEvent] is the exact reducer. *)
Lemma handleEvent_is_exact (event : PipelineEvent) (st : state) :
  reads_own event = true ->
  Exact.handleEvent event (embed st) = embed (handleEvent event st).
Proof.
  unfold reads_own. intros H. apply negb_true_iff in H.
  unfold Exact.handleEvent, handleEvent. rewrite (read_own_property _ H).
  destruct (String.eqb (ev_step event) "pipeline").
  - destruct (String.eqb (ev_status event) "error"); reflexivity.
  - destruct (STEP_INDEX_MAP !! ev_step event) as [n |]; [| reflexivity].
    destruct (String.eqb (ev_status event) "running");
      [| destruct (String.eqb (ev_status event) "done")];
      unfold embed; cbn; destruct (userNavigatedRef st) eqn:Href; cbn;
      rewrite ?Href, ?kmap_insert, ?set_map_union_L, ?set_map_singleton_L by apply _;
      reflexivity.
Qed.

Lemma handleEvents_are_exact (events : list PipelineEvent) (st : state) :
  forallb reads_own events = true ->
  fold_left (fun st event => Exact.handleEvent event st) events (embed st)
    = embed (handleEvents events st).
Proof.
  revert st. induction events as [| event events IH]; intros st H.
  - reflexivity.
  - cbn in H. apply andb_prop in H as [He H].
    cbn. rewrite (handleEvent_is_exact event st He). apply IH, H.
Qed.

(** C9.  The index ranges do not survive an event whose step is named like
    a member of [Object.prototype].  The table has no key [toString], yet
    the read is not [undefined], so the reducer goes on: right after the
    start of a run a [done] event for [toString] puts a member that is no
    number into the completed set, stores step data under a key that is no
    index, and makes the active and the viewed step [NaN]; a [running]
    event for [constructor] makes both steps [NaN] as well. *)
Theorem inherited_step_escapes_the_ranges :
  let st := Exact.handleEvent Inherited.toString_done (embed Sample.started) in
  let st' := Exact.handleEvent Inherited.constructor_running (embed Sample.started) in
  STEP_INDEX_MAP !! "toString" = None /\
  read_step_index "toString" = inherited "toString" /\
  inr "toString" ∈ Exact.completedSteps st /\
  Exact.stepData st !! inr "toString" = Some (event_data Inherited.toString_done) /\
  Exact.activeStep st = Exact.NaN /\
  Exact.viewedStep st = Exact.NaN /\
  Exact.activeStep st' = Exact.NaN /\
  Exact.viewedStep st' = Exact.NaN /\
  Exact.stepData st' !! inr "constructor"
    = Some (event_data Inherited.constructor_running).
Proof.
  cbv zeta.
  split; [reflexivity |]. split; [reflexivity |]. split.
  - unfold Exact.handleEvent. cbn.
    apply elem_of_union_r, elem_of_singleton. reflexivity.
  - split; [| repeat split].
    unfold Exact.handleEvent. cbn. apply lookup_insert_eq.
Qed.
